(** * clap: batch commands over the cloudify repositories

    A shallow embedding of [clap/clap.py] (Python 2) and the properties of
    its repository-set resolution, package derivation and command
    orchestration.

    Conventions of the embedding
    - [str] values are [string]; the [str] methods the program calls are in
      module [Py], one function per method.
    - [actual_repos] and [packages] are [OrderedDict]s: association lists in
      insertion order, assignment to a present key keeps its position.
    - [repos_dict] is a plain [dict] that is only assigned to and looked up:
      a [gmap string string].
    - the plain [dict] that [_get_repos] builds and iterates is iterated in
      the order of the host's mapping type, class [HostDict].
    - [sh] (git, pip) and [os] are the collaborators of the program; they are
      taken as a scripted [Facade]: a command line has one outcome, its
      output or an exception.
    - a command is a function from the state of [actual_repos] to its
      result, the new state and the events it emitted (lines printed and
      commands run), in order.
    - [pull] runs threads: it is a step relation over the main thread and
      the threads it starts, [pull_step]; a [print] is one step. *)

From Stdlib Require Import Ascii String.
From stdpp Require Import base list strings gmap.

Local Open Scope stdpp_scope.

(** ** The [str] methods used by the program *)

Module Py.

(** [s.lstrip()], [s.rstrip()], [s.strip()]: whitespace is the C locale's,
    [Ascii.is_space]. *)
Fixpoint lstrip (s : string) : string :=
  match s with
  | String c s' => if Ascii.is_space c then lstrip s' else s
  | EmptyString => EmptyString
  end.

Fixpoint rstrip (s : string) : string :=
  match s with
  | String c s' =>
      match rstrip s' with
      | EmptyString => if Ascii.is_space c then EmptyString else String c EmptyString
      | r => String c r
      end
  | EmptyString => EmptyString
  end.

Definition strip (s : string) : string := rstrip (lstrip s).

(** [s.split(sep)] for a one-character separator. *)
Fixpoint split (sep : ascii) (s : string) : list string :=
  match s with
  | EmptyString => [EmptyString]
  | String c s' =>
      if decide (c = sep) then EmptyString :: split sep s'
      else match split sep s' with
           | p :: ps => String c p :: ps
           | [] => [String c EmptyString]
           end
  end.

(** [s.startswith(p)] *)
Definition startswith (p s : string) : bool := String.prefix p s.

(** [sub in s] *)
Fixpoint contains (sub s : string) : bool :=
  String.prefix sub s ||
  match s with
  | String _ s' => contains sub s'
  | EmptyString => false
  end.

(** [s.count(c)] for a character *)
Fixpoint count (c : ascii) (s : string) : nat :=
  match s with
  | String c' s' => (if decide (c' = c) then 1 else 0) + count c s'
  | EmptyString => 0
  end.

(** [fill * n] *)
Fixpoint repeat (fill : ascii) (n : nat) : string :=
  match n with
  | O => EmptyString
  | S n' => String fill (repeat fill n')
  end.

(** ['{0:<w}'.format(s)] *)
Definition ljust (w : nat) (s : string) : string :=
  s +:+ repeat " " (w - String.length s).

(** ['{s:{c}^{w}}'.format(s=s, c=fill, w=w)]: the left padding is half of
    the total, rounded down. *)
Definition center (fill : ascii) (w : nat) (s : string) : string :=
  let pad := w - String.length s in
  let left := pad / 2 in
  repeat fill left +:+ s +:+ repeat fill (pad - left).

(** truth value of a [str] *)
Definition truthy (s : string) : bool :=
  match s with EmptyString => false | _ => true end.

End Py.

(** ** Constants *)

Definition MASTER : string := "master".

Definition CORE_REPOS : list string :=
  [ "cloudify-dsl-parser";
    "cloudify-rest-client";
    "cloudify-plugins-common";
    "cloudify-diamond-plugin";
    "cloudify-agent";
    "cloudify-cli";
    "cloudify-manager";
    "cloudify-manager-blueprints";
    "cloudify-premium";
    "cloudify-script-plugin";
    "cloudify-amqp-influxdb";
    "docl" ].

Definition DEV_REPOS : list string :=
  [ "cloudify-fabric-plugin";
    "cloudify-system-tests";
    "cloudify-dev" ].

Definition REPOS : list string := CORE_REPOS ++ DEV_REPOS.

(** The catalogue the commands run over. The program has one, [clap];
    the functions below take it as an argument so that they can be read at
    other catalogues too. *)
Record Catalogue := { core_repos : list string; dev_repos : list string }.

Definition all_repos (c : Catalogue) : list string := core_repos c ++ dev_repos c.

Definition clap : Catalogue := {| core_repos := CORE_REPOS; dev_repos := DEV_REPOS |}.

(** ** OrderedDict *)

Definition odict := list (string * string).

(** [d[k] = v] *)
Fixpoint od_set (k v : string) (d : odict) : odict :=
  match d with
  | [] => [(k, v)]
  | (k', v') :: d' =>
      if decide (k' = k) then (k, v) :: d' else (k', v') :: od_set k v d'
  end.

(** [d.get(k)] *)
Fixpoint od_get (k : string) (d : odict) : option string :=
  match d with
  | [] => None
  | (k', v') :: d' => if decide (k' = k) then Some v' else od_get k d'
  end.

(** [d.pop(k, None)]: the value found, and the dict without the key *)
Definition od_pop (k : string) (d : odict) : option string * odict :=
  (od_get k d, filter (λ kv, kv.1 ≠ k) d).

(** ** The host's plain dict *)

(** The dict built by the assignments [d[k] = v] of [l], first to last. *)
Definition dict_of (l : list (string * string)) : gmap string string :=
  foldl (λ m kv, <[kv.1 := kv.2]> m) ∅ l.

(** [iteritems] of a plain dict: Python 2 fixes its contents and leaves the
    order to the implementation, which may depend on the assignments that
    built the dict. *)
Class HostDict := {
  dict_iteritems : list (string * string) → list (string * string);
  dict_iteritems_perm l : dict_iteritems l ≡ₚ map_to_list (dict_of l)
}.

(** ** Exceptions, collaborators and events *)

Inductive exn :=
  | ErrorReturnCode (msg : string)   (* sh.ErrorReturnCode: the command returned non-zero *)
  | ValueError (msg : string)
  | OSError (msg : string).

(** [str(e)] *)
Definition exn_str (e : exn) : string :=
  match e with
  | ErrorReturnCode msg | ValueError msg | OSError msg => msg
  end.

Inductive outcome (A : Type) :=
  | Returns (a : A)
  | Raises (e : exn).
Arguments Returns {A} a.
Arguments Raises {A} e.

(** What the program asks of [sh] and [os]: running a command line gives its
    standard output or raises; the outcomes are scripted per command line. *)
Record Facade := {
  run : list string → outcome string;
  os_path_exists : string → bool;
  os_makedirs : string → outcome unit
}.

Inductive event :=
  | Printed (line : string)      (* one [print] statement *)
  | Ran (cmd : list string)      (* one command handed to [sh] *)
  | MadeDirs (path : string).    (* one call of [os.makedirs] *)

(** ** Commands: state of [actual_repos], exceptions, emitted events *)

Definition M (A : Type) : Type := odict → outcome A * odict * list event.

Definition ret {A} (a : A) : M A := λ s, (Returns a, s, []).

Definition bind {A B} (f : A → M B) (m : M A) : M B := λ s,
  match m s with
  | (Returns a, s', t) => let '(r, s'', t') := f a s' in (r, s'', t ++ t')
  | (Raises e, s', t) => (Raises e, s', t)
  end.

#[export] Instance M_ret : MRet M := @ret.
#[export] Instance M_bind : MBind M := @bind.

Definition emit (ev : event) : M unit := λ s, (Returns tt, s, [ev]).

Definition lift {A} (o : outcome A) : M A := λ s, (o, s, []).

Definition get_actual_repos : M odict := λ s, (Returns s, s, []).

Definition set_actual_repos (d : odict) : M unit := λ _, (Returns tt, d, []).

(** [try: m except sh.ErrorReturnCode, e: h e] *)
Definition try_except_ErrorReturnCode {A} (m : M A) (h : exn → M A) : M A := λ s,
  match m s with
  | (Raises (ErrorReturnCode msg), s', t) =>
      let '(r, s'', t') := h (ErrorReturnCode msg) s' in (r, s'', t ++ t')
  | r => r
  end.

(** [try: m except Exception, e: h e] *)
Definition try_except_Exception {A} (m : M A) (h : exn → M A) : M A := λ s,
  match m s with
  | (Raises e, s', t) => let '(r, s'', t') := h e s' in (r, s'', t ++ t')
  | r => r
  end.

(** [for x in l: body x] *)
Fixpoint for_ {A} (l : list A) (body : A → M unit) : M unit :=
  match l with
  | [] => ret tt
  | x :: l' => body x ;; for_ l' body
  end.

(** [print s] *)
Definition print (s : string) : M unit := emit (Printed s).

(** ** colorama *)

Module Fore.
Definition ESC : string := String "027" "[".
Definition RED : string := ESC +:+ "31m".
Definition GREEN : string := ESC +:+ "32m".
Definition YELLOW : string := ESC +:+ "33m".
Definition BLUE : string := ESC +:+ "34m".
Definition RESET : string := ESC +:+ "39m".
End Fore.

(** [os.path.join(a, b)] (posix) *)
Definition os_path_join (a b : string) : string :=
  if Py.startswith "/" b then b
  else if bool_decide (a = "") || Py.startswith "/" (String.rev a) then a +:+ b
  else a +:+ "/" +:+ b.

Definition BASE_GITHUB_URL (repo : string) : string :=
  "git@github.com:cloudify-cosmo/" +:+ repo +:+ ".git".

Section Clap.

Context (cat : Catalogue) (REPO_BASE : string) (host : HostDict) (sys : Facade).

(** [sh]: run a baked command with more arguments *)
Definition sh_call (baked args : list string) : M string :=
  emit (Ran (baked ++ args)) ;; lift (run sys (baked ++ args)).

Definition _git (repo : string) : list string :=
  let repo_path := os_path_join REPO_BASE repo in
  ["git"; "--no-pager"; "--git-dir"; os_path_join repo_path ".git";
   "--work-tree"; repo_path].

Definition _print (repo line : string) : M unit :=
  let repo := Fore.GREEN +:+ repo in
  print (Py.ljust 35 repo +:+ "| " +:+ line +:+ Fore.RESET).

Definition _print_header (header : string) : M unit :=
  let header := Fore.BLUE +:+ header +:+ Fore.RESET in
  print (Py.center "-" 40 header).

Definition _get_current_branch_or_tag (git : list string) : M string :=
  try_except_ErrorReturnCode
    (out ← sh_call git ["symbolic-ref"; "-q"; "--short"; "HEAD"];
     ret (Py.strip out))
    (λ _, out ← sh_call git ["describe"; "--tags"; "--exact-match"];
          ret (Py.strip out)).

Definition _parse_and_print_output (repo output : string) : M unit :=
  for_ (Py.split "010" output) (λ line,
    if Py.truthy line then
      let line := Fore.YELLOW +:+ line in
      _print repo line
    else ret tt).

Definition _pull_repo (repo : string) : M unit :=
  let git := _git repo in
  output ← try_except_ErrorReturnCode
              (sh_call git ["pull"])
              (λ _, ret "No upstream defined. Skipping pull.");
  _parse_and_print_output repo output.

(** [_get_repos(branch=MASTER, dev=True)]; the result is what the caller
    iterates over. *)
Definition _get_repos (branch : string) (dev : bool) : M (list (string * string)) :=
  actual ← get_actual_repos;
  if bool_decide (actual ≠ []) then
    (if bool_decide (branch ≠ MASTER) then
       for_ actual (λ '(repo, repo_branch),
         if bool_decide (repo_branch = MASTER) then
           d ← get_actual_repos;
           set_actual_repos (od_set repo branch d)
         else ret tt)
     else ret tt);;
    get_actual_repos
  else
    let repos_list := if dev then all_repos cat else core_repos cat in
    ret (dict_iteritems ((λ repo, (repo, branch)) <$> repos_list)).

(** One turn of the first loop of [_parse_requirements]: the entry a line
    assigns in [repos_dict]. Unpacking [line.split('@')] into two names
    raises [ValueError] unless it has exactly two elements. *)
Definition parse_line (branch line : string) : outcome (string * string) :=
  let line := Py.strip line in
  if Py.contains "@" line then
    match Py.split "@" line with
    | [repo; repo_branch] => Returns (repo, repo_branch)
    | [] | [_] => Raises (ValueError "need more than 1 value to unpack")
    | _ => Raises (ValueError "too many values to unpack")
    end
  else Returns (line, branch).

Fixpoint parse_lines (branch : string) (lines : list string)
    (repos_dict : gmap string string) : outcome (gmap string string) :=
  match lines with
  | [] => Returns repos_dict
  | line :: lines' =>
      match parse_line branch line with
      | Returns (repo, repo_branch) =>
          parse_lines branch lines' (<[repo := repo_branch]> repos_dict)
      | Raises e => Raises e
      end
  end.

(** [_parse_requirements(requirements, branch)]; [lines] is what
    [f.readlines()] gives for the file [requirements]. *)
Definition _parse_requirements (lines : list string) (branch : string) : M unit :=
  repos_dict ← lift (parse_lines branch lines ∅);
  for_ (all_repos cat) (λ repo,
    match repos_dict !! repo with
    | Some repo_branch =>
        d ← get_actual_repos;
        set_actual_repos (od_set repo repo_branch d)
    | None => ret tt
    end).

(** The body of [_get_cloudify_packages] after the call of [_get_repos]. *)
Definition cloudify_packages_of (repos : list (string * string)) : odict :=
  let packages := foldl (λ p '(repo, _), od_set repo repo p) [] repos in
  let '(manager_repo, packages) := od_pop "cloudify-manager" packages in
  let '(_, packages) := od_pop "cloudify-manager-blueprints" packages in
  let '(_, packages) := od_pop "cloudify-dev" packages in
  if from_option Py.truthy false manager_repo then
    let packages := od_set "cloudify-rest-service" "cloudify-manager/rest-service" packages in
    let packages := od_set "cloudify-integration-tests" "cloudify-manager/tests" packages in
    od_set "cloudify-system-workflows" "cloudify-manager/workflows" packages
  else packages.

Definition _get_cloudify_packages : M (list (string * string)) :=
  repos ← _get_repos MASTER true;
  ret (cloudify_packages_of repos).

Definition _git_clone (git : list string) (repo branch : string) (shallow : bool)
    : M string :=
  let full_url := BASE_GITHUB_URL repo in
  let repo_path := os_path_join REPO_BASE repo in
  let args := [full_url; repo_path; "--branch"; branch] in
  let args := if shallow then args ++ ["--depth"; "1"] else args in
  sh_call git ("clone" :: args).

Definition _clone_repo (git : list string) (repo repo_branch : string)
    (shallow : bool) : M string :=
  _parse_and_print_output repo ("Cloning `" +:+ repo +:+ "`");;
  output ← _git_clone git repo repo_branch shallow;
  ret (if Py.truthy output then output
       else "Successfully cloned `" +:+ repo +:+ "`").

Definition _create_repo_base : M unit :=
  if negb (os_path_exists sys REPO_BASE) then
    print ("Creating base repos dir: " +:+ REPO_BASE);;
    emit (MadeDirs REPO_BASE);;
    lift (os_makedirs sys REPO_BASE)
  else ret tt.

Definition _print_status_line (line repo : string) : M unit :=
  if negb (Py.truthy line) then ret tt
  else
    match String.words line with
    | [status_out; line] =>
        let status_out := Fore.RED +:+ status_out in
        let line := Fore.GREEN +:+ line in
        _print repo (status_out +:+ " " +:+ line)
    | _ => _print repo (Fore.GREEN +:+ line)
    end.

Definition _print_install_line (line name : string) (verbose : bool) : M unit :=
  if negb (Py.truthy line) then ret tt
  else if verbose || Py.startswith "Successfully installed" line then
    _print name (Fore.YELLOW +:+ line)
  else ret tt.

(** The first lines of [pull], before any thread is started: the header,
    and the repositories that a thread is made for. The threads are in
    [pull_step] below. *)
Definition pull_repos : M (list string) :=
  _print_header "Pull";;
  repos ← _get_repos MASTER true;
  ret (repos.*1).

(** One turn of the loop of [status]. *)
Definition status_turn (rb : string * string) : M unit :=
  let '(repo, _) := rb in
  let git := _git repo in
  branch ← _get_current_branch_or_tag git;
  _print repo branch;;
  out ← sh_call git ["status"; "-s"];
  let status_out := Py.strip out in
  for_ (Py.split "010" status_out) (λ line, _print_status_line line repo).

Definition status : M unit :=
  _print_header "Status";;
  repos ← _get_repos MASTER true;
  for_ repos status_turn.

(** One turn of the loop of [install]; [None] stands for the [continue] of
    the handler. *)
Definition install_turn (pip : list string) (verbose : bool)
    (np : string * string) : M unit :=
  let '(name, path) := np in
  let repo_path := os_path_join REPO_BASE path in
  installed ← try_except_Exception
                 (output ← sh_call pip ["install"; "-e"; repo_path];
                  ret (Some output))
                 (λ e,
                   let error := Fore.RED +:+ "Could not pip install repo: " +:+ exn_str e in
                   _print name error;;
                   ret None);
  match installed with
  | Some output =>
      for_ (Py.split "010" output) (λ line, _print_install_line line name verbose)
  | None => ret tt
  end.

Definition install (verbose : bool) : M unit :=
  _print_header "Install";;
  let pip := ["pip"] in
  packages ← _get_cloudify_packages;
  for_ packages (install_turn pip verbose).

(** One turn of the loop of [checkout]. *)
Definition checkout_turn (rb : string * string) : M unit :=
  let '(repo, repo_branch) := rb in
  let git := _git repo in
  output ← try_except_ErrorReturnCode
              (sh_call git ["checkout"; repo_branch])
              (λ _, ret ("Could not checkout branch `" +:+ repo_branch +:+ "`"));
  _parse_and_print_output repo output.

Definition checkout (branch : string) : M unit :=
  _print_header "Checkout";;
  repos ← _get_repos branch true;
  for_ repos checkout_turn.

(** One turn of the loop of [clone]. *)
Definition clone_turn (git : list string) (shallow : bool)
    (rb : string * string) : M unit :=
  let '(repo, repo_branch) := rb in
  output ← try_except_ErrorReturnCode
              (_clone_repo git repo repo_branch shallow)
              (λ e, ret ("Could not clone repo `" +:+ repo +:+ "`: " +:+ exn_str e));
  let output :=
    if Py.contains "fatal: destination path" output
    then "Repo is already cloned (the folder exists)" else output in
  _parse_and_print_output repo output.

Definition clone (shallow dev : bool) : M unit :=
  _print_header "Clone";;
  let git := ["git"] in
  _create_repo_base;;
  repos ← _get_repos MASTER dev;
  for_ repos (clone_turn git shallow).

(** [setup(branch=MASTER, requirements=None)]; [requirements] is [None] or
    the lines of the file it names. *)
Definition setup (branch : string) (requirements : option (list string)) : M unit :=
  match requirements with
  | Some lines => _parse_requirements lines branch
  | None => ret tt
  end;;
  clone true true;;
  status;;
  install false.

End Clap.

(** ** [pull]: the threads *)

(** A thread object: made with its target, then started, then finished.
    The target [_pull_repo(repo)] does not read [actual_repos], so it is
    given by the events it is still to emit. *)
Inductive thread :=
  | Unstarted (target : list event)
  | Running (todo : list event)
  | Finished.

(** Where the main thread is in [pull]: in the loop that starts thread [i],
    in the loop that joins thread [i], or back from it. *)
Inductive main_pc :=
  | Starting (i : nat)
  | Joining (i : nat)
  | Returned.

(** The threads of [pull], and what has been emitted so far, each event
    with the index of its thread. *)
Record pool := Pool {
  pc : main_pc;
  threads : list thread;
  log : list (nat * event)
}.

(** The events that thread [i] has emitted. *)
Definition events_of (i : nat) (lg : list (nat * event)) : list event :=
  (filter (λ ie, ie.1 = i) lg).*2.

Section Pull.

Context (REPO_BASE : string) (sys : Facade).

(** The events of the target of the thread for [repo]. *)
Definition pull_events (repo : string) : list event :=
  (_pull_repo REPO_BASE sys repo []).2.

(** [threads = [Thread(target=_pull_repo, args=(repo, )) for repo, _ in ...]] *)
Definition pull_init (repos : list string) : pool :=
  Pool (Starting 0) ((λ repo, Unstarted (pull_events repo)) <$> repos) [].

(** One step of the main thread or of one of the threads it started. The
    main thread starts the threads in order, then joins them in order; [join]
    goes on only when the thread has finished. A started thread emits its
    events one by one, then finishes. Any thread that can take a step may be
    the next to take one. *)
Inductive pull_step (n : nat) : pool → pool → Prop :=
  | step_start i target ths lg :
      ths !! i = Some (Unstarted target) →
      pull_step n (Pool (Starting i) ths lg)
                  (Pool (Starting (S i)) (<[i := Running target]> ths) lg)
  | step_started ths lg :
      pull_step n (Pool (Starting n) ths lg) (Pool (Joining 0) ths lg)
  | step_emit p i ev todo ths lg :
      ths !! i = Some (Running (ev :: todo)) →
      pull_step n (Pool p ths lg)
                  (Pool p (<[i := Running todo]> ths) (lg ++ [(i, ev)]))
  | step_finish p i ths lg :
      ths !! i = Some (Running []) →
      pull_step n (Pool p ths lg) (Pool p (<[i := Finished]> ths) lg)
  | step_join i ths lg :
      ths !! i = Some Finished →
      pull_step n (Pool (Joining i) ths lg) (Pool (Joining (S i)) ths lg)
  | step_joined ths lg :
      pull_step n (Pool (Joining n) ths lg) (Pool Returned ths lg).

(** The states that [pull] can be in for the repositories [repos]. *)
Definition pull_reachable (repos : list string) (st : pool) : Prop :=
  rtc (pull_step (length repos)) (pull_init repos) st.

(** What holds of thread [i], for the repository [repo], in every state. *)
Definition thread_inv (repo : string) (emitted : list event) (th : option thread) : Prop :=
  match th with
  | Some (Unstarted target) => emitted = [] ∧ target = pull_events repo
  | Some (Running todo) => emitted ++ todo = pull_events repo
  | Some Finished => emitted = pull_events repo
  | None => False
  end.

Definition started (th : option thread) : Prop :=
  match th with Some (Unstarted _) | None => False | _ => True end.

Definition pc_inv (n : nat) (p : main_pc) (ths : list thread) : Prop :=
  match p with
  | Starting k =>
      k ≤ n ∧ (∀ i, k ≤ i → i < n → ∃ target, ths !! i = Some (Unstarted target)) ∧
      (∀ i, i < k → started (ths !! i))
  | Joining k =>
      k ≤ n ∧ (∀ i, i < n → started (ths !! i)) ∧
      (∀ i, i < k → ths !! i = Some Finished)
  | Returned => ∀ i, i < n → ths !! i = Some Finished
  end.

Definition pool_inv (repos : list string) (st : pool) : Prop :=
  length (threads st) = length repos ∧
  (∀ i repo, repos !! i = Some repo →
     thread_inv repo (events_of i (log st)) (threads st !! i)) ∧
  (∀ ie, ie ∈ log st → ie.1 < length repos) ∧
  pc_inv (length repos) (pc st) (threads st).

(** What is left to do: it goes down with every step. *)
Definition thread_measure (th : thread) : nat :=
  match th with
  | Unstarted target => length target + 2
  | Running todo => length todo + 1
  | Finished => 0
  end.

Definition pool_measure (n : nat) (st : pool) : nat :=
  sum_list (thread_measure <$> threads st) +
  match pc st with
  | Starting k => (n - k) + n + 2
  | Joining k => (n - k) + 1
  | Returned => 0
  end.

End Pull.

(** * The vocabulary of the properties

    What the statements below are written with: override sources, hosts
    and collaborators to run the commands on, the events the commands emit,
    and the threads of [pull]. *)

(** What a line of an override source names: [repo] alone takes the
    default branch, [repo@ref] takes [ref]. White space around the line is
    not part of it. *)
Inductive override_line (branch : string) : string → string * string → Prop :=
  | override_repo line :
      Py.count "@" line = 0 →
      override_line branch line (Py.strip line, branch)
  | override_repo_ref line repo ref :
      Py.strip line = repo +:+ "@" +:+ ref →
      Py.count "@" repo = 0 → Py.count "@" ref = 0 →
      override_line branch line (repo, ref).

(** The second loop of [_parse_requirements]. *)
Definition rebuild (m : gmap string string) (l : list string) (s : odict) : odict :=
  foldl (λ d repo, match m !! repo with Some b => od_set repo b d | None => d end) s l.

(** A line as [readlines] gives it: the text and the line feed. *)
Definition text_line (s : string) : string := s +:+ String "010" EmptyString.

(** A host whose plain dicts iterate in insertion order. *)
Definition od_of (l : list (string * string)) : odict :=
  foldl (λ d kv, od_set kv.1 kv.2 d) [] l.

(** A host whose plain dicts iterate in the reverse of insertion order. *)
Definition od_of_reversed (l : list (string * string)) : odict := reverse (od_of l).

(** Collaborators for which every command succeeds and prints nothing. *)
Definition quiet_sys : Facade :=
  {| run := λ _, Returns ""; os_path_exists := λ _, true; os_makedirs := λ _, Returns tt |}.

(** What a branch argument makes of an entry: an entry at the default
    branch moves to [branch], any other entry stays. *)
Definition switched (branch : string) (rb : string * string) : string * string :=
  (rb.1, if decide (rb.2 = MASTER) then branch else rb.2).

(** The two-repository catalogue of the example. *)
Definition AB : Catalogue := {| core_repos := ["A"; "B"]; dev_repos := [] |}.

(** The repositories that have no package of their own. *)
Definition NOT_PLAIN : list string :=
  ["cloudify-manager"; "cloudify-manager-blueprints"; "cloudify-dev"].

(** The three packages that stand for the manager repository. *)
Definition MANAGER_PACKAGES : list (string * string) :=
  [("cloudify-rest-service", "cloudify-manager/rest-service");
   ("cloudify-integration-tests", "cloudify-manager/tests");
   ("cloudify-system-workflows", "cloudify-manager/workflows")].

(** The line [_print] prints for [name] and [text]. *)
Definition tagged_line (name text : string) : string :=
  Py.ljust 35 (Fore.GREEN +:+ name) +:+ "| " +:+ text +:+ Fore.RESET.

(** The events of [_parse_and_print_output]: a line for each line of
    [output] that is not empty. *)
Definition output_lines (name output : string) : list event :=
  (λ line, Printed (tagged_line name (Fore.YELLOW +:+ line))) <$>
    filter (λ line, line ≠ "") (Py.split "010" output).

(** An event is about the package (or repository) [np], a name and a path
    under the base directory: it is a line tagged with the name, or a
    command that has the path among its arguments. *)
Definition about (REPO_BASE : string) (np : string * string) (ev : event) : Prop :=
  match ev with
  | Printed line => ∃ text, line = tagged_line np.1 text
  | Ran cmd => os_path_join REPO_BASE np.2 ∈ cmd
  | MadeDirs _ => False
  end.

(** The events [t] are one block per element of [names], in the order of
    [names]; the block of a name is not empty and is about that name only. *)
Definition in_order (REPO_BASE : string) (names : list (string * string))
    (t : list event) : Prop :=
  ∃ blocks : list (list event),
    t = concat blocks ∧
    Forall2 (λ np blk, blk ≠ [] ∧ Forall (about REPO_BASE np) blk) names blocks.

(** A repository as a package: its name is its path. *)
Definition plain (r : string) : string * string := (r, r).

(** The command line of [_git_clone]. *)
Definition clone_command (REPO_BASE repo branch : string) (shallow : bool)
    : list string :=
  ["git"; "clone"; BASE_GITHUB_URL repo; os_path_join REPO_BASE repo;
   "--branch"; branch] ++ (if shallow then ["--depth"; "1"] else []).

(** What [clone] looks for in the output to tell that the path exists. *)
Definition DESTINATION_EXISTS : string := "fatal: destination path".

(** What [clone] prints for the text that stands for the outcome. *)
Definition clone_report (repo output : string) : list event :=
  output_lines repo
    (if Py.contains DESTINATION_EXISTS output
     then "Repo is already cloned (the folder exists)" else output).

(** Collaborators with some failures, under the base directory [/repos]:
    cloning [cloudify-cli] finds its directory, cloning [cloudify-agent]
    does not find the branch, pulling [cloudify-cli] meets a conflict, and
    the checkout of [cloudify-agent] is at a commit with no tag. *)
Definition sample_sys : Facade :=
  {| run cmd :=
       if bool_decide (cmd !! 1%nat = Some "clone") then
         if bool_decide (cmd !! 3%nat = Some "/repos/cloudify-cli") then
           Raises (ErrorReturnCode
             "fatal: destination path '/repos/cloudify-cli' already exists and is not an empty directory.")
         else if bool_decide (cmd !! 3%nat = Some "/repos/cloudify-agent") then
           Raises (ErrorReturnCode "fatal: Remote branch 3.4 not found in upstream origin")
         else Returns ""
       else if bool_decide (cmd !! 5%nat = Some "/repos/cloudify-cli") then
         if bool_decide (cmd !! 6%nat = Some "pull") then
           Raises (ErrorReturnCode
             "CONFLICT (content): Merge conflict in setup.py")
         else Returns "master"
       else if bool_decide (cmd !! 5%nat = Some "/repos/cloudify-agent") then
         if bool_decide (cmd !! 6%nat = Some "symbolic-ref") then
           Raises (ErrorReturnCode "")
         else if bool_decide (cmd !! 6%nat = Some "describe") then
           Raises (ErrorReturnCode "fatal: no tag exactly matches 'a1b2c3d'")
         else Returns ""
       else Returns "";
     os_path_exists := λ _, true;
     os_makedirs := λ _, Returns tt |}.

(** A turn for [np] leaves [actual_repos] alone and emits events, at least
    one, that are all about [np]. *)
Definition turn_about (REPO_BASE : string) (np : string * string) (s : odict)
    (res : outcome unit * odict * list event) : Prop :=
  res.1.2 = s ∧ res.2 ≠ [] ∧ Forall (about REPO_BASE np) res.2.

(** The line of [_print_header]. *)
Definition header_line (header : string) : string :=
  Py.center "-" 40 (Fore.BLUE +:+ header +:+ Fore.RESET).

(** The events [t] of a loop over [names] that ended with [out]: a block
    for every name, in order, up to the one where the loop stopped, and for
    all of them when it returned. *)
Definition processed_in_order (REPO_BASE : string) (names : list (string * string))
    (out : outcome unit) (t : list event) : Prop :=
  ∃ n, in_order REPO_BASE (take n names) t ∧ (out = Returns tt → n = length names).

(** The commands handed to [sh] among the events [t], in order. *)
Definition commands_of (t : list event) : list (list string) :=
  omap (λ ev, match ev with Ran cmd => Some cmd | _ => None end) t.

(** The lines printed among the events [t], in order. *)
Definition lines_of (t : list event) : list string :=
  omap (λ ev, match ev with Printed line => Some line | _ => None end) t.

(** The command line of a turn of [install] for the package at [path]. *)
Definition pip_command (REPO_BASE path : string) : list string :=
  ["pip"; "install"; "-e"; os_path_join REPO_BASE path].


(** The two command lines of [_get_current_branch_or_tag]. *)
Definition symbolic_ref_command (git : list string) : list string :=
  git ++ ["symbolic-ref"; "-q"; "--short"; "HEAD"].

Definition describe_command (git : list string) : list string :=
  git ++ ["describe"; "--tags"; "--exact-match"].

(** The event is a command of git, or no command at all. *)
Definition git_only (ev : event) : Prop :=
  match ev with
  | Ran cmd => head cmd = Some "git"
  | _ => True
  end.

(** The text [_print_status_line] prints for a line of [git status -s]
    that is not empty. *)
Definition status_text (line : string) : string :=
  match String.words line with
  | [status_out; path] => (Fore.RED +:+ status_out) +:+ " " +:+ (Fore.GREEN +:+ path)
  | _ => Fore.GREEN +:+ line
  end.

(** The lines of the output of pip that a turn of [install] prints: the
    lines that are not empty, all of them when [verbose], else the ones
    that start with [Successfully installed]. *)
Definition install_lines (verbose : bool) (name output : string) : list event :=
  (λ line, Printed (tagged_line name (Fore.YELLOW +:+ line))) <$>
    filter (λ line, line ≠ "" ∧ (verbose || Py.startswith "Successfully installed" line))
      (Py.split "010" output).

(** The line a turn of [install] prints when pip fails with [e]. *)
Definition install_error_line (name : string) (e : exn) : event :=
  Printed (tagged_line name (Fore.RED +:+ "Could not pip install repo: " +:+ exn_str e)).

(** The first statement of [setup]: the override source, if there is one,
    is resolved into [actual_repos]. *)
Definition resolve (cat : Catalogue) (branch : string)
    (requirements : option (list string)) : M unit :=
  match requirements with
  | Some lines => _parse_requirements cat lines branch
  | None => ret tt
  end.

(** What [clone] emits before its loop. *)
Definition clone_preamble (REPO_BASE : string) (sys : Facade) : list event :=
  Printed (header_line "Clone") ::
  if os_path_exists sys REPO_BASE then []
  else [Printed ("Creating base repos dir: " +:+ REPO_BASE); MadeDirs REPO_BASE].

(** Collaborators for which the base directory is missing and cannot be
    made. *)
Definition read_only_sys : Facade :=
  {| run := λ _, Returns "";
     os_path_exists := λ _, false;
     os_makedirs := λ _, Raises (OSError "[Errno 13] Permission denied: '/repos'") |}.

(** * Properties *)

(** ** [str] methods *)

Section PyFacts.

Lemma lstrip_count c s : Ascii.is_space c = false → Py.count c (Py.lstrip s) = Py.count c s.
Proof.
  intros Hc. induction s as [|a s IH]; [done|]. simpl.
  destruct (Ascii.is_space a) eqn:Ha; [|done].
  rewrite IH. destruct (decide (a = c)) as [->|]; [congruence|done].
Qed.

Lemma rstrip_count c s : Ascii.is_space c = false → Py.count c (Py.rstrip s) = Py.count c s.
Proof.
  intros Hc. induction s as [|a s IH]; [done|]. simpl.
  destruct (Py.rstrip s) as [|b r] eqn:Hr.
  - simpl in IH. rewrite <- IH.
    destruct (Ascii.is_space a) eqn:Ha; simpl; [|lia].
    destruct (decide (a = c)) as [->|]; [congruence|done].
  - change (Py.count c (String a (String b r))) with
      ((if decide (a = c) then 1 else 0) + Py.count c (String b r)).
    by rewrite IH.
Qed.

Lemma strip_count c s : Ascii.is_space c = false → Py.count c (Py.strip s) = Py.count c s.
Proof. intros Hc. unfold Py.strip. by rewrite rstrip_count, lstrip_count. Qed.

Lemma split_length sep s : length (Py.split sep s) = S (Py.count sep s).
Proof.
  induction s as [|a s IH]; [done|]. simpl.
  destruct (decide (a = sep)); simpl; [by rewrite IH|].
  destruct (Py.split sep s); simpl in *; lia.
Qed.

Lemma contains_char c s :
  Py.contains (String c EmptyString) s = bool_decide (1 ≤ Py.count c s).
Proof.
  induction s as [|a s IH]; [done|].
  cbn [Py.contains Py.count String.prefix]. rewrite IH.
  destruct (ascii_dec c a) as [->|Hne].
  - rewrite decide_True by done.
    replace (String.prefix EmptyString s) with true by (by destruct s).
    symmetry. apply bool_decide_eq_true. lia.
  - rewrite decide_False by done. done.
Qed.

End PyFacts.

(** ** OrderedDict *)

Section OdFacts.

Lemma od_set_keys k v (d : odict) :
  (od_set k v d).*1 = if decide (k ∈ d.*1) then d.*1 else d.*1 ++ [k].
Proof.
  induction d as [|[k' v'] d IH]; [done|]. csimpl.
  destruct (decide (k' = k)) as [->|Hne]; csimpl.
  - rewrite decide_True; [done|]. by left.
  - rewrite IH. destruct (decide (k ∈ d.*1)) as [Hin|Hni].
    + rewrite decide_True; [done|]. by right.
    + rewrite decide_False; [done|]. intros [?|?]%elem_of_cons; by simplify_eq.
Qed.

Lemma od_set_new k v (d : odict) : k ∉ d.*1 → od_set k v d = d ++ [(k, v)].
Proof.
  induction d as [|[k' v'] d IH]; simpl; intros Hni; [done|].
  rewrite decide_False; [|intros ->; apply Hni; by left].
  rewrite IH; [done|]. intros ?; apply Hni; by right.
Qed.

Lemma od_set_NoDup k v (d : odict) : NoDup d.*1 → NoDup (od_set k v d).*1.
Proof.
  intros Hd. rewrite od_set_keys. case_decide; [done|].
  apply NoDup_app. split_and!; [done| |apply NoDup_singleton].
  intros x Hx ->%list_elem_of_singleton. done.
Qed.

Lemma od_get_set k v k' (d : odict) :
  od_get k' (od_set k v d) = if decide (k = k') then Some v else od_get k' d.
Proof.
  induction d as [|[k0 v0] d IH]; simpl.
  - by destruct (decide (k = k')).
  - destruct (decide (k0 = k)) as [->|Hne]; simpl.
    + by destruct (decide (k = k')).
    + rewrite IH. destruct (decide (k0 = k')) as [->|]; [|done].
      by rewrite decide_False.
Qed.

Lemma od_get_list_to_map (d : odict) k :
  od_get k d = (list_to_map d : gmap string string) !! k.
Proof.
  induction d as [|[k0 v0] d IH]; simpl; [by rewrite lookup_empty|].
  destruct (decide (k0 = k)) as [->|Hne].
  - by rewrite lookup_insert_eq.
  - by rewrite lookup_insert_ne.
Qed.

Lemma od_get_Some (d : odict) k v : NoDup d.*1 → od_get k d = Some v ↔ (k, v) ∈ d.
Proof.
  intros Hd. rewrite od_get_list_to_map. symmetry. by apply elem_of_list_to_map.
Qed.

Lemma od_get_None (d : odict) k : od_get k d = None ↔ k ∉ d.*1.
Proof. rewrite od_get_list_to_map. symmetry. apply not_elem_of_list_to_map. Qed.

End OdFacts.

(** ** The plain dict *)

Section DictFacts.

Lemma dict_of_snoc l k v : dict_of (l ++ [(k, v)]) = <[k := v]> (dict_of l).
Proof. unfold dict_of. by rewrite foldl_app. Qed.

Lemma dict_of_foldl (m : gmap string string) l :
  foldl (λ m kv, <[kv.1 := kv.2]> m) m l = dict_of l ∪ m.
Proof.
  revert m. induction l as [|[k v] l IH] using rev_ind; intros m.
  - unfold dict_of. simpl. by rewrite (left_id_L ∅ (∪)).
  - rewrite dict_of_snoc, foldl_app. simpl. rewrite IH.
    by rewrite insert_union_l.
Qed.

(** Later assignments win. *)
Lemma dict_of_list_to_map l : dict_of l = list_to_map (reverse l).
Proof.
  induction l as [|[k v] l IH] using rev_ind; [done|].
  by rewrite dict_of_snoc, reverse_snoc, IH.
Qed.

Lemma dict_of_lookup_None l k : dict_of l !! k = None ↔ k ∉ l.*1.
Proof.
  rewrite dict_of_list_to_map, <- not_elem_of_list_to_map.
  by rewrite fmap_reverse, elem_of_reverse.
Qed.

Lemma dict_of_lookup_Some l k v : dict_of l !! k = Some v → (k, v) ∈ l.
Proof.
  rewrite dict_of_list_to_map. intros H%elem_of_list_to_map_2.
  by apply elem_of_reverse.
Qed.

Lemma dict_of_lookup_NoDup l k v :
  NoDup l.*1 → dict_of l !! k = Some v ↔ (k, v) ∈ l.
Proof.
  intros Hl. rewrite dict_of_list_to_map, <- elem_of_list_to_map.
  - by rewrite elem_of_reverse.
  - by rewrite fmap_reverse, reverse_Permutation.
Qed.

End DictFacts.

(** ** Running commands *)

Section RunFacts.

Lemma bind_run {A B} (m : M A) (f : A → M B) s :
  (m ≫= f) s =
    match m s with
    | (Returns a, s', t) => let '(r, s'', t') := f a s' in (r, s'', t ++ t')
    | (Raises e, s', t) => (Raises e, s', t)
    end.
Proof. done. Qed.

Lemma bind_run_returns {A B} (m : M A) (f : A → M B) s a s' t :
  m s = (Returns a, s', t) →
  (m ≫= f) s = ((f a s').1.1, (f a s').1.2, t ++ (f a s').2).
Proof. intros H. rewrite bind_run, H. by destruct (f a s') as [[??]?]. Qed.

Lemma bind_run_raises {A B} (m : M A) (f : A → M B) s e s' t :
  m s = (Raises e, s', t) → (m ≫= f) s = (Raises e, s', t).
Proof. intros H. by rewrite bind_run, H. Qed.

(** A loop whose turns return and leave [actual_repos] alone emits the
    events of its turns, in the order of the list. *)
Lemma for_stateless {A} (l : list A) (body : A → M unit) s :
  (∀ x, x ∈ l → (body x s).1 = (Returns tt, s)) →
  for_ l body s = (Returns tt, s, concat ((λ x, (body x s).2) <$> l)).
Proof.
  induction l as [|x l IH]; intros Hl; [done|].
  simpl. rewrite bind_run.
  specialize (Hl x (list_elem_of_here _ _)) as Hx.
  destruct (body x s) as [[r s'] t]. simpl in Hx. simplify_eq.
  rewrite IH; [done|]. intros y Hy. apply Hl. by right.
Qed.

(** A loop stops at the first turn that raises. *)
Lemma for_raises {A} (pre post : list A) x (body : A → M unit) s e t :
  (∀ y, y ∈ pre → (body y s).1 = (Returns tt, s)) →
  body x s = (Raises e, s, t) →
  for_ (pre ++ x :: post) body s =
    (Raises e, s, concat ((λ y, (body y s).2) <$> pre) ++ t).
Proof.
  induction pre as [|y pre IH]; intros Hpre Hx; simpl.
  - by rewrite bind_run, Hx.
  - rewrite bind_run.
    specialize (Hpre y (list_elem_of_here _ _)) as Hy.
    destruct (body y s) as [[r s'] t']. simpl in Hy. simplify_eq.
    rewrite IH; [|intros z Hz; apply Hpre; by right|done].
    by rewrite (assoc_L (++)).
Qed.

End RunFacts.

(** ** Resolution from an override source *)

Section ResolverFacts.

Context (cat : Catalogue).

Lemma split_no_sep sep s : Py.count sep s = 0 → Py.split sep s = [s].
Proof.
  induction s as [|a s IH]; [done|]. simpl.
  destruct (decide (a = sep)); [done|]. intros H. by rewrite IH.
Qed.

Lemma split_app_sep sep a b :
  Py.count sep a = 0 → Py.split sep (a +:+ String sep b) = a :: Py.split sep b.
Proof.
  induction a as [|c a IH]; simpl.
  - intros _. by rewrite decide_True.
  - destruct (decide (c = sep)); [done|]. intros H. by rewrite IH.
Qed.

Lemma count_app c a b : Py.count c (a +:+ b) = Py.count c a + Py.count c b.
Proof. induction a as [|x a IH]; simpl; [done|]. rewrite IH. lia. Qed.

Lemma parse_line_override branch line e :
  override_line branch line e → parse_line branch line = Returns e.
Proof.
  destruct 1 as [line H0|line repo ref Hs Hrepo Href]; unfold parse_line.
  - rewrite contains_char, strip_count, H0 by done. done.
  - rewrite contains_char, Hs.
    change (repo +:+ "@" +:+ ref) with (repo +:+ String "@" ref).
    rewrite count_app. simpl. rewrite bool_decide_true by lia.
    rewrite split_app_sep, split_no_sep by done. done.
Qed.

Lemma parse_lines_override branch lines entries m :
  Forall2 (override_line branch) lines entries →
  parse_lines branch lines m = Returns (dict_of entries ∪ m).
Proof.
  intros H. revert m. induction H as [|line [r b] lines entries Hl _ IH]; intros m.
  - simpl. unfold dict_of. simpl. by rewrite (left_id_L ∅ (∪)).
  - simpl. rewrite (parse_line_override _ _ _ Hl), IH.
    f_equal. unfold dict_of at 2. simpl. rewrite dict_of_foldl.
    rewrite <- (assoc_L (∪)). f_equal.
    by rewrite <- insert_union_l, (left_id_L ∅ (∪)).
Qed.

Lemma rebuild_run (m : gmap string string) l s :
  for_ l (λ repo,
    match m !! repo with
    | Some repo_branch => d ← get_actual_repos; set_actual_repos (od_set repo repo_branch d)
    | None => ret tt
    end) s = (Returns tt, rebuild m l s, []).
Proof.
  revert s. induction l as [|r l IH]; intros s; [done|].
  simpl. rewrite bind_run. destruct (m !! r) as [b|] eqn:Hr.
  - rewrite bind_run. simpl. by rewrite IH.
  - simpl. by rewrite IH.
Qed.

Lemma rebuild_fresh (m : gmap string string) l s :
  NoDup l → (∀ r, r ∈ l → r ∉ s.*1) →
  rebuild m l s = s ++ omap (λ r, (r,.) <$> m !! r) l.
Proof.
  revert s. induction l as [|r l IH]; intros s Hl Hs; simpl.
  - by rewrite (right_id_L [] (++)).
  - apply NoDup_cons in Hl as [Hr Hl].
    destruct (m !! r) as [b|] eqn:Hm; simpl.
    + rewrite od_set_new by (apply Hs; by left).
      rewrite IH; [by rewrite <- (assoc_L (++))|done|].
      intros r' Hr'. rewrite fmap_app. intros [?|Heq%list_elem_of_singleton]%elem_of_app.
      * eapply Hs; [by right|done].
      * simpl in Heq. by subst.
    + apply IH; [done|]. intros r' Hr'. apply Hs. by right.
Qed.


End ResolverFacts.

Section OverrideFacts.

Context (cat : Catalogue).

Lemma omap_lookup_keys (m : gmap string string) (l : list string) :
  (omap (λ r, (r,.) <$> m !! r) l).*1 = filter (λ r, is_Some (m !! r)) l.
Proof.
  induction l as [|r l IH]; [done|]. csimpl.
  destruct (m !! r) as [b|] eqn:Hr; csimpl.
  - rewrite filter_cons_True by (by rewrite Hr). by rewrite IH.
  - rewrite filter_cons_False; [done|]. rewrite Hr. by intros [??].
Qed.






Lemma parse_line_cases branch line :
  (∃ e, parse_line branch line = Returns e) ∨
  parse_line branch line = Raises (ValueError "too many values to unpack").
Proof.
  unfold parse_line. rewrite contains_char.
  case_bool_decide as Hc; [|by eauto].
  pose proof (split_length "@" (Py.strip line)) as Hlen.
  destruct (Py.split "@" (Py.strip line)) as [|a [|b [|c l]]]; simpl in Hlen;
    [lia|lia|by eauto|by right].
Qed.

Lemma parse_line_two_ats branch line :
  2 ≤ Py.count "@" line →
  parse_line branch line = Raises (ValueError "too many values to unpack").
Proof.
  intros H. unfold parse_line. rewrite contains_char.
  pose proof (split_length "@" (Py.strip line)) as Hlen.
  rewrite strip_count in * by done.
  rewrite bool_decide_true by lia.
  destruct (Py.split "@" (Py.strip line)) as [|a [|b [|c l]]]; simpl in Hlen;
    [lia|lia|lia|done].
Qed.

Lemma parse_lines_two_ats branch lines m :
  (∃ line, line ∈ lines ∧ 2 ≤ Py.count "@" line) →
  parse_lines branch lines m = Raises (ValueError "too many values to unpack").
Proof.
  intros (line & Hin & H2). revert m.
  induction lines as [|l lines IH]; intros m; [by apply elem_of_nil in Hin|].
  simpl. apply elem_of_cons in Hin as [<-|Hin].
  - by rewrite parse_line_two_ats.
  - destruct (parse_line_cases branch l) as [[[r b] ->]| ->]; [|done]. by apply IH.
Qed.

End OverrideFacts.

(** ** The Catalogue of the program *)

Lemma NoDup_REPOS : NoDup (all_repos clap).
Proof. apply (bool_decide_unpack _). by vm_compute. Qed.

(** ** C9: a line with two or more [@] *)

(** C9. When some line of the override source has two or more [@],
    unpacking its split raises [ValueError]; nothing handles it, so
    [_parse_requirements] and [setup] end with that error, [actual_repos]
    is as before and no command has run. *)
Theorem parse_requirements_two_ats (cat : Catalogue) (REPO_BASE : string)
    (host : HostDict) (sys : Facade) (branch : string) (lines : list string)
    (s : odict) :
  (∃ line, line ∈ lines ∧ 2 ≤ Py.count "@" line) →
  _parse_requirements cat lines branch s =
    (Raises (ValueError "too many values to unpack"), s, []) ∧
  setup cat REPO_BASE host sys branch (Some lines) s =
    (Raises (ValueError "too many values to unpack"), s, []).
Proof.
  intros H.
  assert (_parse_requirements cat lines branch s =
    (Raises (ValueError "too many values to unpack"), s, [])) as Hp.
  { unfold _parse_requirements. rewrite bind_run. unfold lift.
    by rewrite parse_lines_two_ats. }
  split; [done|]. unfold setup. by rewrite bind_run, Hp.
Qed.

(** ** Two hosts *)

Section HostFacts.

Lemma list_to_map_od_set k v (d : odict) :
  (list_to_map (od_set k v d) : gmap string string) = <[k := v]> (list_to_map d).
Proof.
  apply map_eq. intros k'. rewrite <- od_get_list_to_map, od_get_set.
  destruct (decide (k = k')) as [->|Hne].
  - by rewrite lookup_insert_eq.
  - by rewrite lookup_insert_ne, od_get_list_to_map.
Qed.

Lemma od_of_snoc l k v : od_of (l ++ [(k, v)]) = od_set k v (od_of l).
Proof. unfold od_of. by rewrite foldl_app. Qed.

Lemma od_of_NoDup l : NoDup (od_of l).*1.
Proof.
  induction l as [|[k v] l IH] using rev_ind; [constructor|].
  rewrite od_of_snoc. by apply od_set_NoDup.
Qed.

Lemma od_of_dict_of l : list_to_map (od_of l) = dict_of l.
Proof.
  induction l as [|[k v] l IH] using rev_ind; [done|].
  by rewrite od_of_snoc, dict_of_snoc, list_to_map_od_set, IH.
Qed.

Lemma od_of_perm l : od_of l ≡ₚ map_to_list (dict_of l).
Proof.
  rewrite <- od_of_dict_of. symmetry. apply map_to_list_to_map, od_of_NoDup.
Qed.

Lemma od_of_reversed_perm l : od_of_reversed l ≡ₚ map_to_list (dict_of l).
Proof. unfold od_of_reversed. rewrite reverse_Permutation. apply od_of_perm. Qed.

End HostFacts.

Definition insertion_ordered : HostDict :=
  {| dict_iteritems := od_of; dict_iteritems_perm := od_of_perm |}.

Definition reverse_ordered : HostDict :=
  {| dict_iteritems := od_of_reversed; dict_iteritems_perm := od_of_reversed_perm |}.

Lemma parse_requirements_two_ats_witness :
  (∃ line, line ∈ [text_line "cloudify-cli"; text_line "cloudify-agent@3.4@rc1"] ∧
           2 ≤ Py.count "@" line) ∧
  _parse_requirements clap
      [text_line "cloudify-cli"; text_line "cloudify-agent@3.4@rc1"] MASTER [] =
    (Raises (ValueError "too many values to unpack"), [], []) ∧
  setup clap "/home/user/dev/repos/" insertion_ordered quiet_sys MASTER
      (Some [text_line "cloudify-cli"; text_line "cloudify-agent@3.4@rc1"]) [] =
    (Raises (ValueError "too many values to unpack"), [], []).
Proof.
  assert (∃ line, line ∈ [text_line "cloudify-cli"; text_line "cloudify-agent@3.4@rc1"] ∧
           2 ≤ Py.count "@" line) as H.
  { exists (text_line "cloudify-agent@3.4@rc1"). split; [by right; left|]. vm_compute. lia. }
  split; [exact H|].
  exact (parse_requirements_two_ats clap "/home/user/dev/repos/" insertion_ordered
           quiet_sys MASTER _ [] H).
Defined.

(** ** [_get_repos] *)

Section GetReposFacts.

Context (cat : Catalogue) (host : HostDict).

Lemma od_set_middle k v v0 (d1 d2 : odict) :
  k ∉ d1.*1 → od_set k v (d1 ++ (k, v0) :: d2) = d1 ++ (k, v) :: d2.
Proof.
  induction d1 as [|[k1 v1] d1 IH]; csimpl; intros Hni.
  - by rewrite decide_True.
  - rewrite decide_False by (intros ->; apply Hni; by left).
    rewrite IH; [done|]. intros ?. apply Hni. by right.
Qed.

Lemma switched_keys branch (l : odict) : (switched branch <$> l).*1 = l.*1.
Proof. rewrite <- list_fmap_compose. by apply list_fmap_ext. Qed.

(** The loop of [_get_repos] over the entries [post] still to visit, the
    entries [pre] already visited. *)
Lemma switch_loop_run branch (pre post : odict) :
  NoDup (pre ++ post).*1 →
  for_ post (λ '(repo, repo_branch),
    if bool_decide (repo_branch = MASTER) then
      d ← get_actual_repos; set_actual_repos (od_set repo branch d)
    else ret tt) ((switched branch <$> pre) ++ post)
  = (Returns tt, switched branch <$> (pre ++ post), []).
Proof.
  revert pre. induction post as [|[r b] post IH]; intros pre Hnd.
  - by rewrite !(right_id_L [] (++)).
  - simpl. rewrite bind_run.
    assert (r ∉ (switched branch <$> pre).*1) as Hr.
    { rewrite fmap_app in Hnd. apply NoDup_app in Hnd as (_ & Hd & _).
      rewrite switched_keys. intros Hin. apply (Hd r); [done|by left]. }
    assert (NoDup ((pre ++ [(r, b)]) ++ post).*1) as Hnd'
      by (by rewrite <- (assoc_L (++))).
    specialize (IH (pre ++ [(r, b)]) Hnd').
    rewrite <- (assoc_L (++)) in IH.
    case_bool_decide as Hb.
    + rewrite bind_run. simpl. rewrite od_set_middle by done.
      rewrite fmap_app, <- (assoc_L (++)) in IH. simpl in IH.
      unfold switched at 2 in IH. simpl in IH. rewrite decide_True in IH by done.
      by rewrite IH.
    + simpl. rewrite fmap_app, <- (assoc_L (++)) in IH. simpl in IH.
      unfold switched at 2 in IH. simpl in IH. rewrite decide_False in IH by done.
      by rewrite IH.
Qed.

(** With an override in place, [_get_repos] gives [actual_repos], after the
    branch argument has been applied to it. *)
Lemma get_repos_override branch dev (s : odict) :
  s ≠ [] → NoDup s.*1 →
  _get_repos cat host branch dev s =
    let s' := if decide (branch = MASTER) then s else switched branch <$> s in
    (Returns s', s', []).
Proof.
  intros Hs Hnd. unfold _get_repos. rewrite bind_run. simpl.
  rewrite bool_decide_true by done. rewrite bind_run.
  case_bool_decide as Hb.
  - rewrite decide_False by done.
    pose proof (switch_loop_run branch [] s Hnd) as Hloop. simpl in Hloop.
    by rewrite Hloop.
  - by rewrite decide_True.
Qed.

(** With no override, it gives the plain dict of the catalogue at [branch]. *)
Lemma get_repos_no_override branch dev :
  _get_repos cat host branch dev [] =
    (Returns (dict_iteritems
                ((λ repo, (repo, branch)) <$> (if dev then all_repos cat else core_repos cat))),
     [], []).
Proof. done. Qed.

Lemma dict_of_const_lookup (l : list string) c k :
  dict_of ((λ repo, (repo, c)) <$> l) !! k = if decide (k ∈ l) then Some c else None.
Proof.
  case_decide as Hk.
  - destruct (dict_of ((λ repo, (repo, c)) <$> l) !! k) as [v|] eqn:Hv.
    + apply dict_of_lookup_Some, list_elem_of_fmap in Hv as (r & [= -> ->] & _). done.
    + apply dict_of_lookup_None in Hv. exfalso. apply Hv.
      rewrite <- list_fmap_compose. apply list_elem_of_fmap. by exists k.
  - apply dict_of_lookup_None. rewrite <- list_fmap_compose.
    intros (r & -> & Hr)%list_elem_of_fmap. done.
Qed.

Lemma switched_no_override branch (l : list string) :
  dict_iteritems ((λ repo, (repo, branch)) <$> l) ≡ₚ
  switched branch <$> dict_iteritems ((λ repo, (repo, MASTER)) <$> l).
Proof.
  rewrite !dict_iteritems_perm.
  rewrite (list_fmap_ext (switched branch)
             (prod_map id (λ b : string, if decide (b = MASTER) then branch else b)))
    by (by intros ? [??]).
  rewrite <- map_to_list_fmap. f_equiv. apply map_eq. intros k.
  rewrite lookup_fmap, !dict_of_const_lookup.
  by destruct (decide (k ∈ l)).
Qed.

Lemma od_of_NoDup_id (l : list (string * string)) : NoDup l.*1 → od_of l = l.
Proof.
  induction l as [|[k v] l IH] using rev_ind; intros Hnd; [done|].
  rewrite fmap_app in Hnd. apply NoDup_app in Hnd as (Hl & Hk & _).
  rewrite od_of_snoc, IH by done. apply od_set_new.
  intros Hin. apply (Hk k Hin). by left.
Qed.

(** The plain dict of a list with no name twice has the entries of the
    list. *)
Lemma dict_iteritems_const branch (l : list string) :
  NoDup l → dict_iteritems ((λ repo, (repo, branch)) <$> l) ≡ₚ (λ repo, (repo, branch)) <$> l.
Proof.
  intros Hnd. rewrite dict_iteritems_perm, <- od_of_perm.
  rewrite od_of_NoDup_id; [done|].
  rewrite <- list_fmap_compose. by rewrite list_fmap_id.
Qed.

End GetReposFacts.

(** ** C5: resolution from an override source *)




(** ** C2: the branch argument *)

(** C2, as the code has it. [_get_repos] with the default branch gives the
    resolved RepoSet, [_get_repos] with a branch argument other than the
    default gives it with every entry at the default branch moved to the
    branch argument and every other entry as it was; with an override in
    place the order is kept too, and [actual_repos] is updated to the
    result. For the catalogue [A, B], default [master] and branch argument
    [release], the override lines [A@v2] and [B] give [{A: v2, B: release}];
    the override line [A@v2] alone gives [{A: v2}], since a repository the
    override does not name is not in the RepoSet; and the override lines
    [A@master] and [B@v1] give [{A: release, B: v1}], since an entry at the
    default branch moves whether or not the override named that branch. *)
Theorem branch_argument (cat : Catalogue) (host : HostDict) (dev : bool)
    (branch : string) (s : odict) :
  NoDup s.*1 → branch ≠ MASTER →
  (∃ before after s' : odict,
     _get_repos cat host MASTER dev s = (Returns before, s, []) ∧
     _get_repos cat host branch dev s = (Returns after, s', []) ∧
     after ≡ₚ switched branch <$> before ∧
     (s ≠ [] → before = s ∧ after = switched branch <$> s ∧ s' = after)) ∧
  (_parse_requirements AB ["A@v2"; "B"] MASTER ≫= λ _, _get_repos AB host "release" dev) [] =
    (Returns [("A", "v2"); ("B", "release")], [("A", "v2"); ("B", "release")], []) ∧
  (_parse_requirements AB ["A@v2"] MASTER ≫= λ _, _get_repos AB host "release" dev) [] =
    (Returns [("A", "v2")], [("A", "v2")], []) ∧
  (_parse_requirements AB ["A@master"; "B@v1"] MASTER ≫=
     λ _, _get_repos AB host "release" dev) [] =
    (Returns [("A", "release"); ("B", "v1")], [("A", "release"); ("B", "v1")], []).
Proof.
  intros Hnd Hb. split; [|split_and!; by vm_compute].
  destruct (decide (s = [])) as [->|Hs].
  - eexists _, _, _. rewrite !get_repos_no_override.
    split_and!; [done|done|apply switched_no_override|done].
  - eexists _, _, _. rewrite !get_repos_override by done. simpl.
    rewrite decide_False by done.
    split_and!; done.
Qed.

Lemma branch_argument_witness :
  let s := [("cloudify-cli", "3.4"); ("cloudify-manager", "master")] in
  NoDup s.*1 ∧ "release" ≠ MASTER ∧
  (∃ before after s' : odict,
     _get_repos clap insertion_ordered MASTER true s = (Returns before, s, []) ∧
     _get_repos clap insertion_ordered "release" true s = (Returns after, s', []) ∧
     after ≡ₚ switched "release" <$> before ∧
     (s ≠ [] → before = s ∧ after = switched "release" <$> s ∧ s' = after)) ∧
  (_parse_requirements AB ["A@v2"; "B"] MASTER ≫=
     λ _, _get_repos AB insertion_ordered "release" true) [] =
    (Returns [("A", "v2"); ("B", "release")], [("A", "v2"); ("B", "release")], []) ∧
  (_parse_requirements AB ["A@v2"] MASTER ≫=
     λ _, _get_repos AB insertion_ordered "release" true) [] =
    (Returns [("A", "v2")], [("A", "v2")], []) ∧
  (_parse_requirements AB ["A@master"; "B@v1"] MASTER ≫=
     λ _, _get_repos AB insertion_ordered "release" true) [] =
    (Returns [("A", "release"); ("B", "v1")], [("A", "release"); ("B", "v1")], []).
Proof.
  intros s.
  assert (NoDup s.*1) as Hnd by (apply (bool_decide_unpack _); by vm_compute).
  assert ("release" ≠ MASTER) as Hb by done.
  split; [exact Hnd|]. split; [exact Hb|].
  exact (branch_argument clap insertion_ordered true "release" s Hnd Hb).
Defined.

(** C2 as stated fails at its example: with the override line [A@v2] alone,
    [B] is not in the RepoSet, before or after the branch argument. And an
    explicit ref does not always win: the override line [A@master] names a
    ref, and the branch argument [release] replaces it. *)
Lemma branch_argument_example_without_B :
  (_parse_requirements AB ["A@v2"] MASTER ≫=
     λ _, _get_repos AB insertion_ordered "release" true) [] =
    (Returns [("A", "v2")], [("A", "v2")], []) ∧
  od_get "B" [("A", "v2")] = None ∧
  [("A", "v2")] ≠ [("A", "v2"); ("B", "release")] ∧
  (_parse_requirements AB ["A@master"] MASTER ≫=
     λ _, _get_repos AB insertion_ordered "release" true) [] =
    (Returns [("A", "release")], [("A", "release")], []).
Proof. split; [by vm_compute|]. split; [done|]. split; [done|by vm_compute]. Qed.

(** ** C6: the packages derived from a RepoSet *)

Section PackageFacts.

Lemma packages_first_pass (repos acc : odict) :
  NoDup (acc.*1 ++ repos.*1) →
  foldl (λ p '(repo, _), od_set repo repo p) acc repos =
    acc ++ ((λ r, (r, r)) <$> repos.*1).
Proof.
  revert acc. induction repos as [|[r b] repos IH]; intros acc Hnd; csimpl.
  - by rewrite (right_id_L [] (++)).
  - assert (r ∉ acc.*1) as Hr.
    { apply NoDup_app in Hnd as (_ & Hd & _). intros Hin. apply (Hd r Hin). by left. }
    rewrite od_set_new by done. rewrite IH.
    + by rewrite <- (assoc_L (++)).
    + rewrite fmap_app, <- (assoc_L (++)). done.
Qed.

Lemma filter_plain (c : string) (l : list string) :
  filter (λ kv : string * string, kv.1 ≠ c) ((λ r, (r, r)) <$> l) =
    (λ r, (r, r)) <$> filter (.≠ c) l.
Proof.
  induction l as [|r l IH]; [done|]. csimpl.
  rewrite !filter_cons. simpl. destruct (decide (r ≠ c)); csimpl; by rewrite IH.
Qed.

Lemma plain_keys (l : list string) : ((λ r, (r, r)) <$> l).*1 = l.
Proof. rewrite <- list_fmap_compose. induction l; csimpl; by f_equal. Qed.

Lemma od_get_plain (l : list string) k :
  od_get k ((λ r, (r, r)) <$> l) = if decide (k ∈ l) then Some k else None.
Proof.
  induction l as [|r l IH]; [done|]. csimpl.
  destruct (decide (r = k)) as [->|Hne].
  - rewrite decide_True; [done|by left].
  - rewrite IH. apply decide_ext. rewrite elem_of_cons. split; [tauto|].
    intros [->|?]; done.
Qed.

Lemma cloudify_packages_of_keys (repos : odict) :
  NoDup repos.*1 →
  (∀ p, p ∈ MANAGER_PACKAGES → p.1 ∉ repos.*1) →
  cloudify_packages_of repos =
    ((λ r, (r, r)) <$> filter (.∉ NOT_PLAIN) repos.*1) ++
    (if decide ("cloudify-manager" ∈ repos.*1) then MANAGER_PACKAGES else []).
Proof.
  intros Hnd Hfresh. unfold cloudify_packages_of, od_pop.
  rewrite (packages_first_pass repos []) by done. simpl.
  rewrite od_get_plain.
  rewrite !filter_plain, !list_filter_filter.
  rewrite (list_filter_iff _ (.∉ NOT_PLAIN)).
  2: { intros r. unfold NOT_PLAIN. rewrite !not_elem_of_cons.
       pose proof (not_elem_of_nil r). tauto. }
  set (plain := filter (.∉ NOT_PLAIN) repos.*1).
  assert (∀ p, p ∈ MANAGER_PACKAGES → p.1 ∉ plain) as Hplain.
  { intros p Hp Hin. apply (Hfresh p Hp). by apply list_elem_of_filter in Hin as [_ ?]. }
  destruct (decide ("cloudify-manager" ∈ repos.*1)); simpl; [|by rewrite (right_id_L [] (++))].
  assert (∀ (d : odict) (k k' v' : string),
            k ≠ k' → k ∉ d.*1 → k ∉ (d ++ [(k', v')]).*1) as Hsnoc.
  { intros d k k' v' Hne Hd. rewrite fmap_app.
    intros [?|?%list_elem_of_singleton]%elem_of_app; done. }
  rewrite (od_set_new "cloudify-rest-service").
  2: { rewrite plain_keys.
       apply (Hplain ("cloudify-rest-service", "cloudify-manager/rest-service")). by left. }
  rewrite (od_set_new "cloudify-integration-tests").
  2: { apply Hsnoc; [done|]. rewrite plain_keys.
       apply (Hplain ("cloudify-integration-tests", "cloudify-manager/tests")).
       by right; left. }
  rewrite (od_set_new "cloudify-system-workflows").
  2: { apply Hsnoc; [done|]. apply Hsnoc; [done|]. rewrite plain_keys.
       apply (Hplain ("cloudify-system-workflows", "cloudify-manager/workflows")).
       by right; right; left. }
  by rewrite <- !(assoc_L (++)).
Qed.

End PackageFacts.



Example derived_packages_example :
  cloudify_packages_of
    [("cloudify-cli", "master"); ("cloudify-manager", "3.4");
     ("cloudify-premium", "master"); ("cloudify-dev", "master")] =
  [("cloudify-cli", "cloudify-cli"); ("cloudify-premium", "cloudify-premium");
   ("cloudify-rest-service", "cloudify-manager/rest-service");
   ("cloudify-integration-tests", "cloudify-manager/tests");
   ("cloudify-system-workflows", "cloudify-manager/workflows")].
Proof. by vm_compute. Qed.

(** ** What the commands print and run *)

Section TraceFacts.

Context (cat : Catalogue) (REPO_BASE : string) (host : HostDict) (sys : Facade).

Lemma print_run repo line s :
  _print repo line s = (Returns tt, s, [Printed (tagged_line repo line)]).
Proof. done. Qed.

Lemma sh_call_run baked args s :
  sh_call sys baked args s = (run sys (baked ++ args), s, [Ran (baked ++ args)]).
Proof. unfold sh_call. rewrite bind_run. simpl. unfold lift. by destruct (run sys _). Qed.

(** A loop of turns that each print some lines. *)
Lemma for_lines {A} (l : list A) (body : A → M unit) (lines : A → list event) s :
  (∀ x, body x s = (Returns tt, s, lines x)) →
  for_ l body s = (Returns tt, s, concat (lines <$> l)).
Proof.
  intros Hb. rewrite for_stateless by (intros x _; by rewrite Hb).
  do 2 f_equal. apply list_fmap_ext. intros _ x _. by rewrite Hb.
Qed.

Lemma parse_and_print_run repo output s :
  _parse_and_print_output repo output s = (Returns tt, s, output_lines repo output).
Proof.
  unfold _parse_and_print_output, output_lines.
  rewrite (for_lines _ _ (λ line, if Py.truthy line
             then [Printed (tagged_line repo (Fore.YELLOW +:+ line))] else [])).
  2: { intros line. by destruct line. }
  do 2 f_equal. induction (Py.split "010" output) as [|line l IH]; [done|].
  csimpl. rewrite IH, filter_cons. by destruct line.
Qed.

Lemma output_lines_about np output :
  Forall (about REPO_BASE np) (output_lines np.1 output).
Proof. apply Forall_fmap, Forall_forall. intros line _. simpl. eauto. Qed.

Lemma output_lines_single name text :
  Py.count "010" text = 0 → text ≠ "" →
  output_lines name text = [Printed (tagged_line name (Fore.YELLOW +:+ text))].
Proof.
  intros Hc Ht. unfold output_lines. rewrite split_no_sep by done.
  by rewrite filter_cons_True by done.
Qed.

End TraceFacts.

(** ** C7: clone *)

Section StringFacts.

Lemma prefix_app_char c sub a b :
  Py.count c sub = 0 →
  String.prefix sub (a +:+ String c b) = String.prefix sub a.
Proof.
  revert a. induction sub as [|x sub IH]; intros a Hc; [by destruct a|].
  simpl in Hc. destruct (decide (x = c)) as [->|Hne]; [done|].
  destruct a as [|y a]; simpl.
  - by destruct (ascii_dec x c).
  - destruct (ascii_dec x y); [|done]. by apply IH.
Qed.

(** A text is not found across a character it does not have. *)
Lemma contains_app_char c sub a b :
  Py.count c sub = 0 → sub ≠ "" →
  Py.contains sub (a +:+ String c b) = Py.contains sub a || Py.contains sub b.
Proof.
  intros Hc Hsub. induction a as [|y a IH].
  - destruct sub as [|x sub]; [done|]. simpl in *.
    destruct (decide (x = c)) as [->|Hne]; [done|].
    by destruct (ascii_dec x c).
  - change (String y a +:+ String c b) with (String y (a +:+ String c b)).
    cbn [Py.contains]. rewrite IH.
    change (String y (a +:+ String c b)) with (String y a +:+ String c b).
    rewrite prefix_app_char by done. by rewrite orb_assoc.
Qed.

Lemma contains_app_r sub a b :
  Py.contains sub b = true → Py.contains sub (a +:+ b) = true.
Proof.
  intros Hb. induction a as [|y a IH]; [done|].
  change (String y a +:+ b) with (String y (a +:+ b)).
  cbn [Py.contains]. rewrite IH. apply orb_true_r.
Qed.

Lemma could_not_clone_marker repo msg :
  Py.contains DESTINATION_EXISTS ("Could not clone repo `" +:+ repo +:+ "`: " +:+ msg) =
    Py.contains DESTINATION_EXISTS repo || Py.contains DESTINATION_EXISTS msg.
Proof.
  change ("Could not clone repo `" +:+ repo +:+ "`: " +:+ msg) with
    ("Could not clone repo " +:+ String "`" (repo +:+ String "`" (": " +:+ msg))).
  rewrite !contains_app_char by done.
  by destruct (Py.contains DESTINATION_EXISTS repo).
Qed.

End StringFacts.

Section CloneFacts.

Context (cat : Catalogue) (REPO_BASE : string) (host : HostDict) (sys : Facade).

(** Without a branch argument [_get_repos] leaves [actual_repos] alone. *)
Lemma get_repos_master dev (s : odict) :
  _get_repos cat host MASTER dev s =
    (Returns (if decide (s = []) then
                dict_iteritems ((λ repo, (repo, MASTER)) <$>
                                  (if dev then all_repos cat else core_repos cat))
              else s), s, []).
Proof. destruct s as [|rb s]; [done|]. done. Qed.

Lemma clone_turn_run repo branch shallow s :
  clone_turn REPO_BASE sys ["git"] shallow (repo, branch) s =
    let cmd := clone_command REPO_BASE repo branch shallow in
    let cloning := output_lines repo ("Cloning `" +:+ repo +:+ "`") ++ [Ran cmd] in
    match run sys cmd with
    | Returns out =>
        (Returns tt, s,
         cloning ++ clone_report repo
           (if Py.truthy out then out else "Successfully cloned `" +:+ repo +:+ "`"))
    | Raises (ErrorReturnCode msg) =>
        (Returns tt, s,
         cloning ++ clone_report repo ("Could not clone repo `" +:+ repo +:+ "`: " +:+ msg))
    | Raises e => (Raises e, s, cloning)
    end.
Proof.
  unfold clone_turn, try_except_ErrorReturnCode, _clone_repo, _git_clone.
  rewrite !bind_run, parse_and_print_run, bind_run, sh_call_run.
  assert ((["git"] ++ "clone" ::
            (if shallow
             then [BASE_GITHUB_URL repo; os_path_join REPO_BASE repo; "--branch"; branch] ++
                    ["--depth"; "1"]
             else [BASE_GITHUB_URL repo; os_path_join REPO_BASE repo; "--branch"; branch]))
          = clone_command REPO_BASE repo branch shallow) as -> by (by destruct shallow).
  unfold clone_report.
  destruct (run sys _) as [out|[msg|msg|msg]]; cbn -[Py.contains output_lines];
    rewrite ?parse_and_print_run; cbn -[Py.contains output_lines];
    rewrite ?(right_id_L [] (++)), ?(assoc_L (++)); reflexivity.
Qed.

End CloneFacts.

Section CloneOutcomes.

Context (cat : Catalogue) (REPO_BASE : string) (host : HostDict) (sys : Facade).

Lemma print_header_run header s :
  _print_header header s =
    (Returns tt, s, [Printed (header_line header)]).
Proof. done. Qed.

Lemma create_repo_base_run s :
  _create_repo_base REPO_BASE sys s =
    if os_path_exists sys REPO_BASE then (Returns tt, s, [])
    else (os_makedirs sys REPO_BASE, s,
          [Printed ("Creating base repos dir: " +:+ REPO_BASE); MadeDirs REPO_BASE]).
Proof.
  unfold _create_repo_base. destruct (os_path_exists sys REPO_BASE); [done|].
  cbn. unfold lift. by destruct (os_makedirs sys REPO_BASE).
Qed.

(** The turns of [clone] return when the commands only fail by a non-zero
    return. *)
Lemma clone_turn_returns shallow rb s :
  (∀ cmd e, run sys cmd = Raises e → ∃ msg, e = ErrorReturnCode msg) →
  (clone_turn REPO_BASE sys ["git"] shallow rb s).1 = (Returns tt, s).
Proof.
  intros Hsys. destruct rb as [r b]. rewrite clone_turn_run. cbv zeta.
  destruct (run sys _) as [out|e] eqn:Hrun; [done|].
  destruct (Hsys _ _ Hrun) as [msg ->]. done.
Qed.

End CloneOutcomes.

(** C7. When the commands only fail by a non-zero return and the base
    directory is there or can be made, [clone] returns after a turn for
    every repository of the RepoSet, in order. In the turn of a repository
    whose clone command fails: if the failure says that the destination
    path exists, the turn prints the line [Repo is already cloned (the
    folder exists)] and no failure; otherwise it prints [Could not clone
    repo], the repository and the message of the failure. *)
Theorem clone_outcomes (cat : Catalogue) (REPO_BASE : string) (host : HostDict)
    (sys : Facade) (shallow dev : bool) (s : odict) :
  (∀ cmd e, run sys cmd = Raises e → ∃ msg, e = ErrorReturnCode msg) →
  (os_path_exists sys REPO_BASE = false → os_makedirs sys REPO_BASE = Returns tt) →
  ∃ (rs : list (string * string)) (pre : list event) (blocks : list (list event)),
    _get_repos cat host MASTER dev s = (Returns rs, s, []) ∧
    clone cat REPO_BASE host sys shallow dev s = (Returns tt, s, pre ++ concat blocks) ∧
    Forall2 (λ rb blk,
      let cmd := clone_command REPO_BASE rb.1 rb.2 shallow in
      let cloning := output_lines rb.1 ("Cloning `" +:+ rb.1 +:+ "`") ++ [Ran cmd] in
      ∀ msg, run sys cmd = Raises (ErrorReturnCode msg) →
        (Py.contains DESTINATION_EXISTS msg = true →
         blk = cloning ++
           [Printed (tagged_line rb.1
              (Fore.YELLOW +:+ "Repo is already cloned (the folder exists)"))]) ∧
        (Py.contains DESTINATION_EXISTS msg = false →
         Py.contains DESTINATION_EXISTS rb.1 = false →
         blk = cloning ++
           output_lines rb.1 ("Could not clone repo `" +:+ rb.1 +:+ "`: " +:+ msg)))
      rs blocks.
Proof.
  intros Hsys Hbase.
  eexists _, _, ((λ rb, (clone_turn REPO_BASE sys ["git"] shallow rb s).2) <$> _).
  split; [apply get_repos_master|]. split.
  - unfold clone. rewrite bind_run, print_header_run, bind_run, create_repo_base_run.
    assert ((if os_path_exists sys REPO_BASE then (Returns tt, s, [])
             else (os_makedirs sys REPO_BASE, s,
                   [Printed ("Creating base repos dir: " +:+ REPO_BASE); MadeDirs REPO_BASE]))
            = (Returns tt, s,
               if os_path_exists sys REPO_BASE then []
               else [Printed ("Creating base repos dir: " +:+ REPO_BASE);
                     MadeDirs REPO_BASE])) as ->.
    { destruct (os_path_exists sys REPO_BASE); [done|]. by rewrite Hbase. }
    rewrite bind_run, get_repos_master.
    rewrite for_stateless by (intros; by apply clone_turn_returns).
    rewrite app_nil_l. by rewrite (assoc_L (++)).
  - apply Forall2_fmap_r, Forall_Forall2_diag, Forall_forall.
    intros [r b] _. cbn [fst snd]. intros msg Hrun.
    rewrite clone_turn_run. cbv zeta. rewrite Hrun. cbn [snd]. unfold clone_report.
    rewrite could_not_clone_marker. split.
    + intros ->. rewrite orb_true_r. f_equal.
    + by intros -> ->.
Qed.

Lemma sample_sys_failures cmd e :
  run sample_sys cmd = Raises e → ∃ msg, e = ErrorReturnCode msg.
Proof.
  simpl. repeat case_bool_decide; intros [=]; subst; eauto.
Qed.

Lemma clone_outcomes_witness :
  let s := [("cloudify-agent", "3.4"); ("cloudify-cli", "master")] in
  (∀ cmd e, run sample_sys cmd = Raises e → ∃ msg, e = ErrorReturnCode msg) ∧
  (os_path_exists sample_sys "/repos" = false → os_makedirs sample_sys "/repos" = Returns tt) ∧
  ∃ (rs : list (string * string)) (pre : list event) (blocks : list (list event)),
    _get_repos clap insertion_ordered MASTER true s = (Returns rs, s, []) ∧
    clone clap "/repos" insertion_ordered sample_sys false true s =
      (Returns tt, s, pre ++ concat blocks) ∧
    Forall2 (λ rb blk,
      let cmd := clone_command "/repos" rb.1 rb.2 false in
      let cloning := output_lines rb.1 ("Cloning `" +:+ rb.1 +:+ "`") ++ [Ran cmd] in
      ∀ msg, run sample_sys cmd = Raises (ErrorReturnCode msg) →
        (Py.contains DESTINATION_EXISTS msg = true →
         blk = cloning ++
           [Printed (tagged_line rb.1
              (Fore.YELLOW +:+ "Repo is already cloned (the folder exists)"))]) ∧
        (Py.contains DESTINATION_EXISTS msg = false →
         Py.contains DESTINATION_EXISTS rb.1 = false →
         blk = cloning ++
           output_lines rb.1 ("Could not clone repo `" +:+ rb.1 +:+ "`: " +:+ msg)))
      rs blocks.
Proof.
  intros s.
  assert (os_path_exists sample_sys "/repos" = false →
          os_makedirs sample_sys "/repos" = Returns tt) as Hbase by done.
  split; [exact sample_sys_failures|]. split; [exact Hbase|].
  exact (clone_outcomes clap "/repos" insertion_ordered sample_sys false true s
           sample_sys_failures Hbase).
Defined.

Example clone_run_example :
  clone clap "/repos" insertion_ordered sample_sys false true
    [("cloudify-agent", "3.4"); ("cloudify-cli", "master")] =
  (Returns tt, [("cloudify-agent", "3.4"); ("cloudify-cli", "master")],
   [Printed (header_line "Clone");
    Printed (tagged_line "cloudify-agent" (Fore.YELLOW +:+ "Cloning `cloudify-agent`"));
    Ran ["git"; "clone"; "git@github.com:cloudify-cosmo/cloudify-agent.git";
         "/repos/cloudify-agent"; "--branch"; "3.4"];
    Printed (tagged_line "cloudify-agent"
      (Fore.YELLOW +:+ "Could not clone repo `cloudify-agent`: fatal: Remote branch 3.4 not found in upstream origin"));
    Printed (tagged_line "cloudify-cli" (Fore.YELLOW +:+ "Cloning `cloudify-cli`"));
    Ran ["git"; "clone"; "git@github.com:cloudify-cosmo/cloudify-cli.git";
         "/repos/cloudify-cli"; "--branch"; "master"];
    Printed (tagged_line "cloudify-cli"
      (Fore.YELLOW +:+ "Repo is already cloned (the folder exists)"))]).
Proof. by vm_compute. Qed.

(** ** Turns of the loops *)

Section TurnFacts.

Context (REPO_BASE : string) (sys : Facade).

Lemma git_about repo args :
  about REPO_BASE (plain repo) (Ran (_git REPO_BASE repo ++ args)).
Proof.
  unfold about, plain, _git. cbn [snd]. apply elem_of_app. left.
  do 5 apply list_elem_of_further. apply list_elem_of_here.
Qed.

Lemma for_about {A} (P : event → Prop) (l : list A) (body : A → M unit) s :
  (∀ x, (body x s).1 = (Returns tt, s) ∧ Forall P (body x s).2) →
  (for_ l body s).1 = (Returns tt, s) ∧ Forall P (for_ l body s).2.
Proof.
  intros Hb. rewrite for_stateless by (intros x _; apply Hb). split; [done|].
  simpl. apply Forall_concat, Forall_fmap, Forall_forall. intros x _. apply Hb.
Qed.

(** A loop whose turns are each about their element emits a block for
    every element up to the one where it stops, if it stops. *)
Lemma for_in_order {A} (name : A → string * string) (l : list A)
    (body : A → M unit) s :
  (∀ x, x ∈ l → turn_about REPO_BASE (name x) s (body x s)) →
  ∃ n, (for_ l body s).1.2 = s ∧
       in_order REPO_BASE (name <$> take n l) (for_ l body s).2 ∧
       ((for_ l body s).1.1 = Returns tt → n = length l) ∧
       (∀ e, (for_ l body s).1.1 = Raises e →
          ∃ pre x post, l = pre ++ x :: post ∧ n = S (length pre) ∧
                        (body x s).1.1 = Raises e).
Proof.
  induction l as [|x l IH]; intros Hl.
  - exists 0. split_and!; [done| |done|done]. exists []. by split; [|constructor].
  - destruct (Hl x (list_elem_of_here _ _)) as (Hs & Hne & Hab).
    destruct IH as (n & Hs' & (blocks & Hc & HF) & Hret & Hraise).
    { intros y Hy. apply Hl. by right. }
    simpl. rewrite bind_run.
    destruct (body x s) as [[[[]|e] s1] t] eqn:Hx; simpl in Hs; subst s1.
    + destruct (for_ l body s) as [[r s2] t']. simpl in *. subst s2.
      exists (S n). split_and!; [done| | |].
      * exists (t :: blocks). simpl. split; [by rewrite Hc|]. by constructor.
      * intros Hr. by rewrite Hret.
      * intros e Hr. destruct (Hraise e Hr) as (pre & y & post & -> & -> & Hy).
        exists (x :: pre), y, post. done.
    + exists 1. simpl. split_and!; [done| |done|].
      * exists [t]. simpl. rewrite (right_id_L [] (++)). split; [done|].
        by repeat constructor.
      * intros e' [= ->]. exists [], x, l. by rewrite Hx.
Qed.

Lemma print_status_line_about line repo s :
  (_print_status_line line repo s).1 = (Returns tt, s) ∧
  Forall (about REPO_BASE (plain repo)) (_print_status_line line repo s).2.
Proof.
  unfold _print_status_line. destruct (Py.truthy line); simpl; [|by split].
  destruct (String.words line) as [|a [|b [|c l]]]; rewrite print_run;
    (split; [done|]); repeat constructor; simpl; eauto.
Qed.

Lemma print_install_line_about line name path verbose s :
  (_print_install_line line name verbose s).1 = (Returns tt, s) ∧
  Forall (about REPO_BASE (name, path)) (_print_install_line line name verbose s).2.
Proof.
  unfold _print_install_line. destruct (Py.truthy line); simpl; [|by split].
  destruct (verbose || Py.startswith _ line); [|by split].
  rewrite print_run. split; [done|]. repeat constructor. simpl. eauto.
Qed.

End TurnFacts.

Section CommandTurns.

Context (REPO_BASE : string) (sys : Facade).

Lemma current_branch_or_tag_run git s :
  _get_current_branch_or_tag sys git s =
    let sym := git ++ ["symbolic-ref"; "-q"; "--short"; "HEAD"] in
    let desc := git ++ ["describe"; "--tags"; "--exact-match"] in
    match run sys sym with
    | Returns out => (Returns (Py.strip out), s, [Ran sym])
    | Raises (ErrorReturnCode _) =>
        match run sys desc with
        | Returns out => (Returns (Py.strip out), s, [Ran sym; Ran desc])
        | Raises e => (Raises e, s, [Ran sym; Ran desc])
        end
    | Raises e => (Raises e, s, [Ran sym])
    end.
Proof.
  unfold _get_current_branch_or_tag, try_except_ErrorReturnCode.
  rewrite bind_run, sh_call_run. cbv zeta.
  destruct (run sys (git ++ ["symbolic-ref"; _; _; _])) as [out|[msg|msg|msg]]; try done.
  rewrite bind_run, sh_call_run.
  by destruct (run sys (git ++ ["describe"; _; _])) as [out|e].
Qed.

Lemma status_turn_about rb s :
  turn_about REPO_BASE (plain rb.1) s (status_turn REPO_BASE sys rb s).
Proof.
  destruct rb as [repo b]. unfold status_turn. cbn [fst].
  rewrite bind_run, current_branch_or_tag_run. cbv zeta.
  pose proof (git_about REPO_BASE repo) as Hgit.
  assert (∀ text, about REPO_BASE (plain repo) (Printed (tagged_line repo text)))
    as Hline by (intros text; simpl; eauto).
  assert (∀ pre branch,
    pre ≠ [] → Forall (about REPO_BASE (plain repo)) pre →
    turn_about REPO_BASE (plain repo) s
      (let '(r, s'', t') :=
         (_print repo branch ≫= λ _,
          sh_call sys (_git REPO_BASE repo) ["status"; "-s"] ≫= λ out,
          for_ (Py.split "010" (Py.strip out))
            (λ line, _print_status_line line repo)) s
       in (r, s'', pre ++ t'))) as Hrest.
  { intros pre branch Hne Hpre.
    rewrite bind_run, print_run, bind_run, sh_call_run.
    destruct (run sys _) as [out|e].
    - destruct (for_about (about REPO_BASE (plain repo)) (Py.split "010" (Py.strip out))
                  (λ line, _print_status_line line repo) s) as [Hr Ht].
      { intros line. apply print_status_line_about. }
      destruct (for_ _ _ s) as [[r s'] t]. simpl in Hr. simplify_eq.
      split_and!; [done|by destruct pre|].
      apply Forall_app. split; [done|]. simpl in Ht.
      apply Forall_cons_2; [apply Hline|]. apply Forall_cons_2; [apply Hgit|done].
    - split_and!; [done|by destruct pre|].
      apply Forall_app. split; [done|].
      apply Forall_cons_2; [apply Hline|]. apply Forall_cons_2; [apply Hgit|done]. }
  destruct (run sys (_ ++ ["symbolic-ref"; _; _; _])) as [out|[msg|msg|msg]].
  - apply Hrest; [done|]. apply Forall_cons_2; [apply Hgit|done].
  - destruct (run sys (_ ++ ["describe"; _; _])) as [out|e].
    + apply Hrest; [done|]. do 2 (apply Forall_cons_2; [apply Hgit|]). done.
    + split_and!; [done|done|]. do 2 (apply Forall_cons_2; [apply Hgit|]). done.
  - split_and!; [done|done|]. apply Forall_cons_2; [apply Hgit|done].
  - split_and!; [done|done|]. apply Forall_cons_2; [apply Hgit|done].
Qed.

(** The turn of [status] for a repository whose ref is not found: both
    commands have run, nothing is printed, the second failure is raised. *)
Lemma status_turn_unresolved repo b msg e s :
  run sys (_git REPO_BASE repo ++ ["symbolic-ref"; "-q"; "--short"; "HEAD"]) =
    Raises (ErrorReturnCode msg) →
  run sys (_git REPO_BASE repo ++ ["describe"; "--tags"; "--exact-match"]) = Raises e →
  status_turn REPO_BASE sys (repo, b) s =
    (Raises e, s,
     [Ran (_git REPO_BASE repo ++ ["symbolic-ref"; "-q"; "--short"; "HEAD"]);
      Ran (_git REPO_BASE repo ++ ["describe"; "--tags"; "--exact-match"])]).
Proof.
  intros Hsym Hdesc. unfold status_turn.
  rewrite bind_run, current_branch_or_tag_run. cbv zeta. by rewrite Hsym, Hdesc.
Qed.

End CommandTurns.

(** ** C4: status of a repository whose ref is not found *)

(** C4, as the code has it. When [status] comes to a repository for which
    neither [symbolic-ref] nor [describe] gives a ref, the failure of
    [describe] is raised out of [status]: the repositories before it have
    been reported, in order, nothing is printed for this one, and the
    repositories after it are not looked at. *)
Theorem status_unresolved_ref (cat : Catalogue) (REPO_BASE : string)
    (host : HostDict) (sys : Facade) (s : odict)
    (pre post : list (string * string)) (r b msg : string) (e : exn) :
  _get_repos cat host MASTER true s = (Returns (pre ++ (r, b) :: post), s, []) →
  Forall (λ rb, (status_turn REPO_BASE sys rb s).1.1 = Returns tt) pre →
  run sys (_git REPO_BASE r ++ ["symbolic-ref"; "-q"; "--short"; "HEAD"]) =
    Raises (ErrorReturnCode msg) →
  run sys (_git REPO_BASE r ++ ["describe"; "--tags"; "--exact-match"]) = Raises e →
  ∃ t : list event,
    status cat REPO_BASE host sys s =
      (Raises e, s,
       [Printed (header_line "Status")] ++ t ++
       [Ran (_git REPO_BASE r ++ ["symbolic-ref"; "-q"; "--short"; "HEAD"]);
        Ran (_git REPO_BASE r ++ ["describe"; "--tags"; "--exact-match"])]) ∧
    in_order REPO_BASE (plain <$> pre.*1) t.
Proof.
  intros Hrs Hpre Hsym Hdesc.
  exists (concat ((λ rb, (status_turn REPO_BASE sys rb s).2) <$> pre)). split.
  - unfold status. rewrite bind_run, print_header_run, bind_run, Hrs.
    erewrite (for_raises pre post (r, b) _ s e);
      [done| |by apply (status_turn_unresolved _ _ _ _ msg)].
    intros rb Hrb. rewrite Forall_forall in Hpre. specialize (Hpre rb Hrb).
    destruct (status_turn_about REPO_BASE sys rb s) as (Hs & _).
    destruct (status_turn REPO_BASE sys rb s) as [[o s'] t]. simpl in *. by subst.
  - eexists. split; [done|].
    rewrite <- list_fmap_compose. apply Forall2_fmap, Forall_Forall2_diag, Forall_forall.
    intros rb _. destruct (status_turn_about REPO_BASE sys rb s) as (_ & Hne & Hab). done.
Qed.

Lemma status_unresolved_ref_witness :
  let s := [("cloudify-cli", "master"); ("cloudify-agent", "3.4");
            ("cloudify-premium", "master")] in
  _get_repos clap insertion_ordered MASTER true s =
    (Returns ([("cloudify-cli", "master")] ++ ("cloudify-agent", "3.4") ::
              [("cloudify-premium", "master")]), s, []) ∧
  Forall (λ rb, (status_turn "/repos" sample_sys rb s).1.1 = Returns tt)
    [("cloudify-cli", "master")] ∧
  run sample_sys (_git "/repos" "cloudify-agent" ++ ["symbolic-ref"; "-q"; "--short"; "HEAD"]) =
    Raises (ErrorReturnCode "") ∧
  run sample_sys (_git "/repos" "cloudify-agent" ++ ["describe"; "--tags"; "--exact-match"]) =
    Raises (ErrorReturnCode "fatal: no tag exactly matches 'a1b2c3d'") ∧
  ∃ t : list event,
    status clap "/repos" insertion_ordered sample_sys s =
      (Raises (ErrorReturnCode "fatal: no tag exactly matches 'a1b2c3d'"), s,
       [Printed (header_line "Status")] ++ t ++
       [Ran (_git "/repos" "cloudify-agent" ++ ["symbolic-ref"; "-q"; "--short"; "HEAD"]);
        Ran (_git "/repos" "cloudify-agent" ++ ["describe"; "--tags"; "--exact-match"])]) ∧
    in_order "/repos" (plain <$> [("cloudify-cli", "master")].*1) t.
Proof.
  intros s.
  assert (_get_repos clap insertion_ordered MASTER true s =
    (Returns ([("cloudify-cli", "master")] ++ ("cloudify-agent", "3.4") ::
              [("cloudify-premium", "master")]), s, [])) as H1 by reflexivity.
  assert (Forall (λ rb, (status_turn "/repos" sample_sys rb s).1.1 = Returns tt)
    [("cloudify-cli", "master")]) as H2 by (repeat constructor).
  assert (run sample_sys
            (_git "/repos" "cloudify-agent" ++ ["symbolic-ref"; "-q"; "--short"; "HEAD"]) =
          Raises (ErrorReturnCode "")) as H3 by reflexivity.
  assert (run sample_sys
            (_git "/repos" "cloudify-agent" ++ ["describe"; "--tags"; "--exact-match"]) =
          Raises (ErrorReturnCode "fatal: no tag exactly matches 'a1b2c3d'")) as H4
    by reflexivity.
  split; [exact H1|]. split; [exact H2|]. split; [exact H3|]. split; [exact H4|].
  exact (status_unresolved_ref clap "/repos" insertion_ordered sample_sys s
           _ _ _ _ _ _ H1 H2 H3 H4).
Defined.

(** C4 as stated fails: [cloudify-agent] is at a commit with no tag, and
    [status] ends with the failure of [describe]; no line reports
    [cloudify-agent], and [cloudify-premium], which comes after it, is not
    looked at. *)
Lemma status_aborts_on_unresolved_ref :
  status clap "/repos" insertion_ordered sample_sys
    [("cloudify-agent", "3.4"); ("cloudify-premium", "master")] =
  (Raises (ErrorReturnCode "fatal: no tag exactly matches 'a1b2c3d'"),
   [("cloudify-agent", "3.4"); ("cloudify-premium", "master")],
   [Printed (header_line "Status");
    Ran ["git"; "--no-pager"; "--git-dir"; "/repos/cloudify-agent/.git";
         "--work-tree"; "/repos/cloudify-agent"; "symbolic-ref"; "-q"; "--short"; "HEAD"];
    Ran ["git"; "--no-pager"; "--git-dir"; "/repos/cloudify-agent/.git";
         "--work-tree"; "/repos/cloudify-agent"; "describe"; "--tags"; "--exact-match"]]).
Proof. by vm_compute. Qed.

(** ** C3: pull of a repository whose pull fails *)

(** Whatever makes [git pull] return non-zero, [_pull_repo] prints the line
    for a missing upstream, and the message of the failure is dropped. *)
Lemma pull_failure_run (REPO_BASE : string) (sys : Facade) (repo msg : string) (s : odict) :
  run sys (_git REPO_BASE repo ++ ["pull"]) = Raises (ErrorReturnCode msg) →
  _pull_repo REPO_BASE sys repo s =
    (Returns tt, s,
     [Ran (_git REPO_BASE repo ++ ["pull"]);
      Printed (tagged_line repo (Fore.YELLOW +:+ "No upstream defined. Skipping pull."))]).
Proof.
  intros Hrun. unfold _pull_repo, try_except_ErrorReturnCode.
  rewrite bind_run, sh_call_run, Hrun. cbn -[output_lines _parse_and_print_output].
  by rewrite parse_and_print_run.
Qed.

(** C3, at a failing input. The pull of [cloudify-cli] fails with a merge
    conflict, a non-zero return that is not a missing upstream; the claim
    has it reported as a failed command with its message, the code prints
    [No upstream defined. Skipping pull.] *)
Theorem pull_conflict_printed_as_no_upstream :
  run sample_sys (_git "/repos" "cloudify-cli" ++ ["pull"]) =
    Raises (ErrorReturnCode "CONFLICT (content): Merge conflict in setup.py") ∧
  _pull_repo "/repos" sample_sys "cloudify-cli" [] =
    (Returns tt, [],
     [Ran ["git"; "--no-pager"; "--git-dir"; "/repos/cloudify-cli/.git";
           "--work-tree"; "/repos/cloudify-cli"; "pull"];
      Printed (tagged_line "cloudify-cli"
                 (Fore.YELLOW +:+ "No upstream defined. Skipping pull."))]).
Proof. split; by vm_compute. Qed.

Section MoreTurns.

Context (REPO_BASE : string) (sys : Facade).

Lemma clone_command_about repo branch shallow :
  about REPO_BASE (plain repo) (Ran (clone_command REPO_BASE repo branch shallow)).
Proof.
  unfold about, plain, clone_command. cbn [snd]. apply elem_of_app. left.
  do 3 apply list_elem_of_further. apply list_elem_of_here.
Qed.

Lemma clone_turn_about shallow rb s :
  turn_about REPO_BASE (plain rb.1) s (clone_turn REPO_BASE sys ["git"] shallow rb s).
Proof.
  destruct rb as [repo b]. cbn [fst]. rewrite clone_turn_run. cbv zeta.
  pose proof (output_lines_about REPO_BASE (plain repo)) as Hlines. cbn [plain fst] in Hlines.
  pose proof (clone_command_about repo b shallow) as Hcmd.
  set (cloning := output_lines repo ("Cloning `" +:+ repo +:+ "`") ++
                  [Ran (clone_command REPO_BASE repo b shallow)]).
  assert (Forall (about REPO_BASE (plain repo)) cloning) as Hcloning.
  { apply Forall_app. split; [apply Hlines|]. by apply Forall_cons_2. }
  assert (∀ t : list event, cloning ++ t ≠ []) as Hne.
  { intros t. unfold cloning. by destruct (output_lines repo _). }
  assert (∀ t : list event,
            Forall (about REPO_BASE (plain repo)) t →
            turn_about REPO_BASE (plain repo) s (Returns tt, s, cloning ++ t)) as Hok.
  { intros t Ht. split_and!; [done|apply Hne|]. apply Forall_app. by split. }
  destruct (run sys _) as [out|[msg|msg|msg]]; unfold clone_report.
  - apply Hok, Hlines.
  - apply Hok, Hlines.
  - split_and!; [done| |done]. cbn [snd]. rewrite <- (right_id_L [] (++) cloning). apply Hne.
  - split_and!; [done| |done]. cbn [snd]. rewrite <- (right_id_L [] (++) cloning). apply Hne.
Qed.

Lemma checkout_turn_about rb s :
  turn_about REPO_BASE (plain rb.1) s (checkout_turn REPO_BASE sys rb s) ∧
  ((∀ cmd e, run sys cmd = Raises e → ∃ msg, e = ErrorReturnCode msg) →
   (checkout_turn REPO_BASE sys rb s).1.1 = Returns tt).
Proof.
  destruct rb as [repo b]. cbn [fst]. unfold checkout_turn, try_except_ErrorReturnCode.
  rewrite bind_run, sh_call_run.
  pose proof (output_lines_about REPO_BASE (plain repo)) as Hlines. cbn [plain fst] in Hlines.
  pose proof (git_about REPO_BASE repo ["checkout"; b]) as Hgit.
  destruct (run sys _) as [out|[msg|msg|msg]] eqn:Hrun;
    cbn -[output_lines _parse_and_print_output]; rewrite ?parse_and_print_run;
    cbn -[output_lines].
  - split; [|done]. split_and!; [done|done|]. by apply Forall_cons_2.
  - split; [|done]. split_and!; [done|done|]. by apply Forall_cons_2.
  - split.
    + split_and!; [done|done|]. by apply Forall_cons_2.
    + intros Hsys. by destruct (Hsys _ _ Hrun).
  - split.
    + split_and!; [done|done|]. by apply Forall_cons_2.
    + intros Hsys. by destruct (Hsys _ _ Hrun).
Qed.

Lemma install_turn_about verbose np s :
  turn_about REPO_BASE np s (install_turn REPO_BASE sys ["pip"] verbose np s) ∧
  (install_turn REPO_BASE sys ["pip"] verbose np s).1.1 = Returns tt.
Proof.
  destruct np as [name path]. unfold install_turn, try_except_Exception.
  rewrite !bind_run, sh_call_run.
  assert (about REPO_BASE (name, path)
            (Ran (["pip"] ++ ["install"; "-e"; os_path_join REPO_BASE path]))) as Hpip.
  { simpl. do 3 apply list_elem_of_further. apply list_elem_of_here. }
  destruct (run sys _) as [out|e].
  - destruct (for_about (about REPO_BASE (name, path)) (Py.split "010" out)
                (λ line, _print_install_line line name verbose) s) as [Hr Ht].
    { intros line. apply print_install_line_about. }
    cbn -[for_ Py.split]. destruct (for_ _ _ s) as [[r s'] t]. simpl in Hr. simplify_eq.
    split; [|done]. split_and!; [done|done|]. simpl. by apply Forall_cons_2.
  - rewrite bind_run, print_run. split; [|done]. split_and!; [done|done|].
    apply Forall_cons_2; [done|]. apply Forall_cons_2; [|done]. simpl. eauto.
Qed.

End MoreTurns.

(** ** C1: the order of the RepoSet and of the sequential commands *)

Section OrderFacts.

Context (cat : Catalogue) (REPO_BASE : string) (host : HostDict) (sys : Facade).

Lemma parse_requirements_shape lines branch (s : odict) :
  NoDup (all_repos cat) →
  _parse_requirements cat lines branch [] = (Returns tt, s, []) →
  ∃ m : gmap string string, s = omap (λ r, (r,.) <$> m !! r) (all_repos cat).
Proof.
  intros Hcat. unfold _parse_requirements. rewrite bind_run. unfold lift.
  destruct (parse_lines branch lines ∅) as [m|e]; [|done].
  rewrite rebuild_run, rebuild_fresh; [|done|].
  - intros [= <-]. by exists m.
  - intros r _ H. by apply elem_of_nil in H.
Qed.

Lemma filter_ext_in {A} (P Q : A → Prop) `{!∀ x, Decision (P x), !∀ x, Decision (Q x)}
    (l : list A) :
  (∀ x, x ∈ l → P x ↔ Q x) → filter P l = filter Q l.
Proof.
  induction l as [|x l IH]; intros Hl; [done|].
  rewrite !filter_cons. rewrite IH by (intros y Hy; apply Hl; by right).
  destruct (decide (P x)) as [HP|HP], (decide (Q x)) as [HQ|HQ]; try done.
  - exfalso. apply HQ, Hl; [by left|done].
  - exfalso. apply HP, Hl; [by left|done].
Qed.

(** The RepoSet that an override leaves: Catalogue order, no key twice. *)
Lemma override_repo_set_order lines branch (s : odict) :
  NoDup (all_repos cat) →
  _parse_requirements cat lines branch [] = (Returns tt, s, []) →
  s.*1 = filter (.∈ s.*1) (all_repos cat) ∧ NoDup s.*1.
Proof.
  intros Hcat Hs. destruct (parse_requirements_shape _ _ _ Hcat Hs) as [m ->].
  rewrite omap_lookup_keys. split; [|by apply NoDup_filter].
  apply filter_ext_in. intros r Hr. rewrite list_elem_of_filter. tauto.
Qed.

Lemma loop_processed {A} (name : A → string * string) (l : list A)
    (body : A → M unit) s :
  (∀ x, turn_about REPO_BASE (name x) s (body x s)) →
  ∃ out t, for_ l body s = (out, s, t) ∧
           processed_in_order REPO_BASE (name <$> l) out t.
Proof.
  intros Hb.
  destruct (for_in_order REPO_BASE name l body s) as (n & Hs & Ho & Hret & _).
  { intros x _. apply Hb. }
  destruct (for_ l body s) as [[out s'] t]. simpl in *. subst s'.
  exists out, t. split; [done|]. exists n. rewrite <- fmap_take.
  split; [done|]. intros ->. by rewrite length_fmap, Hret.
Qed.

Lemma loop_all {A} (name : A → string * string) (l : list A) (body : A → M unit) s :
  (∀ x, turn_about REPO_BASE (name x) s (body x s) ∧ (body x s).1.1 = Returns tt) →
  ∃ t, for_ l body s = (Returns tt, s, t) ∧ in_order REPO_BASE (name <$> l) t.
Proof.
  intros Hb. rewrite for_stateless.
  2: { intros x _. destruct (Hb x) as [(Hs & _) Hr].
       destruct (body x s) as [[o s'] t]. simpl in *. by subst. }
  eexists. split; [done|]. eexists. split; [done|].
  apply Forall2_fmap, Forall_Forall2_diag, Forall_forall. intros x _.
  destruct (Hb x) as [(_ & Hne & Hab) _]. done.
Qed.

End OrderFacts.

(** C1, as the code has it. For every RepoSet that an override source
    leaves in [actual_repos] (and that is not empty), the order of the
    RepoSet is the order of the Catalogue over the keys present; [clone]
    (for [dev] true or false), [status] and [checkout] take the
    repositories in that order, a block of commands and lines each, up to
    the repository where the command is stopped by an error, if it is;
    [install] takes the packages derived from the RepoSet in the order of
    their derivation, which puts the packages of the manager repository
    last. *)
Theorem sequential_order (cat : Catalogue) (REPO_BASE : string) (host : HostDict)
    (sys : Facade) (lines : list string) (branch : string) (s : odict) :
  NoDup (all_repos cat) →
  _parse_requirements cat lines branch [] = (Returns tt, s, []) →
  s ≠ [] →
  s.*1 = filter (.∈ s.*1) (all_repos cat) ∧
  (∀ shallow dev, ∃ out t,
     clone cat REPO_BASE host sys shallow dev s =
       (out, s,
        (Printed (header_line "Clone") ::
         if os_path_exists sys REPO_BASE then []
         else [Printed ("Creating base repos dir: " +:+ REPO_BASE); MadeDirs REPO_BASE])
        ++ t) ∧
     processed_in_order REPO_BASE (plain <$> s.*1) out t) ∧
  (∃ out t,
     status cat REPO_BASE host sys s = (out, s, Printed (header_line "Status") :: t) ∧
     processed_in_order REPO_BASE (plain <$> s.*1) out t) ∧
  (∀ branch', ∃ out s' t,
     checkout cat REPO_BASE host sys branch' s =
       (out, s', Printed (header_line "Checkout") :: t) ∧
     s'.*1 = s.*1 ∧
     processed_in_order REPO_BASE (plain <$> s.*1) out t) ∧
  (∀ verbose, ∃ t,
     install cat REPO_BASE host sys verbose s =
       (Returns tt, s, Printed (header_line "Install") :: t) ∧
     in_order REPO_BASE (cloudify_packages_of s) t ∧
     ((∀ p, p ∈ MANAGER_PACKAGES → p.1 ∉ all_repos cat) →
      cloudify_packages_of s =
        (plain <$> filter (.∉ NOT_PLAIN) s.*1) ++
        (if decide ("cloudify-manager" ∈ s.*1) then MANAGER_PACKAGES else []))).
Proof.
  intros Hcat Hparse Hs.
  destruct (override_repo_set_order cat lines branch s Hcat Hparse) as [Hkeys Hnd].
  split; [done|]. split_and!.
  - intros shallow dev. unfold clone.
    rewrite bind_run, print_header_run, bind_run, create_repo_base_run.
    destruct (os_path_exists sys REPO_BASE).
    + rewrite bind_run, get_repos_master, decide_False by done.
      destruct (loop_processed REPO_BASE (λ rb, plain rb.1) s
                  (clone_turn REPO_BASE sys ["git"] shallow) s) as (out & t & Hrun & Hp).
      { intros rb. apply clone_turn_about. }
      rewrite Hrun. exists out, t. split; [done|]. by rewrite <- list_fmap_compose.
    + destruct (os_makedirs sys REPO_BASE) as [[]|e].
      * rewrite bind_run, get_repos_master, decide_False by done.
        destruct (loop_processed REPO_BASE (λ rb, plain rb.1) s
                    (clone_turn REPO_BASE sys ["git"] shallow) s) as (out & t & Hrun & Hp).
        { intros rb. apply clone_turn_about. }
        rewrite Hrun. exists out, t. split; [done|]. by rewrite <- list_fmap_compose.
      * exists (Raises e), []. split; [done|]. exists 0. split; [|done].
        exists []. split; [done|]. rewrite take_0. constructor.
  - unfold status. rewrite bind_run, print_header_run, bind_run, get_repos_master.
    rewrite decide_False by done.
    destruct (loop_processed REPO_BASE (λ rb, plain rb.1) s
                (status_turn REPO_BASE sys) s) as (out & t & Hrun & Hp).
    { intros rb. apply status_turn_about. }
    rewrite Hrun. exists out, t. split; [done|]. by rewrite <- list_fmap_compose.
  - intros branch'. unfold checkout.
    rewrite bind_run, print_header_run, bind_run, get_repos_override by done.
    cbv zeta.
    set (s' := if decide (branch' = MASTER) then s else switched branch' <$> s).
    assert (s'.*1 = s.*1) as Hs'.
    { unfold s'. case_decide; [done|]. apply switched_keys. }
    destruct (loop_processed REPO_BASE (λ rb, plain rb.1) s'
                (checkout_turn REPO_BASE sys) s') as (out & t & Hrun & Hp).
    { intros rb. apply checkout_turn_about. }
    rewrite Hrun. exists out, s', t. split; [done|]. split; [done|].
    by rewrite <- Hs', <- list_fmap_compose.
  - intros verbose. unfold install, _get_cloudify_packages.
    rewrite bind_run, print_header_run, !bind_run, get_repos_master.
    rewrite decide_False by done. cbn [ret mret M_ret].
    destruct (loop_all REPO_BASE id (cloudify_packages_of s)
                (install_turn REPO_BASE sys ["pip"] verbose) s) as (t & Hrun & Ho).
    { intros np. apply install_turn_about. }
    unfold ret. rewrite Hrun. exists t. split; [done|].
    rewrite list_fmap_id in Ho. split; [done|].
    intros Hfresh. apply cloudify_packages_of_keys; [done|].
    intros p Hp Hin. apply (Hfresh p Hp).
    rewrite Hkeys in Hin. by apply list_elem_of_filter in Hin as [_ ?].
Qed.

Lemma sequential_order_witness :
  let lines := [text_line "cloudify-premium"; text_line "cloudify-manager@3.4"] in
  let s := [("cloudify-manager", "3.4"); ("cloudify-premium", "master")] in
  NoDup (all_repos clap) ∧
  _parse_requirements clap lines MASTER [] = (Returns tt, s, []) ∧
  s ≠ [] ∧
  s.*1 = filter (.∈ s.*1) (all_repos clap) ∧
  (∀ shallow dev, ∃ out t,
     clone clap "/repos" insertion_ordered sample_sys shallow dev s =
       (out, s,
        (Printed (header_line "Clone") ::
         if os_path_exists sample_sys "/repos" then []
         else [Printed ("Creating base repos dir: " +:+ "/repos"); MadeDirs "/repos"])
        ++ t) ∧
     processed_in_order "/repos" (plain <$> s.*1) out t) ∧
  (∃ out t,
     status clap "/repos" insertion_ordered sample_sys s =
       (out, s, Printed (header_line "Status") :: t) ∧
     processed_in_order "/repos" (plain <$> s.*1) out t) ∧
  (∀ branch', ∃ out s' t,
     checkout clap "/repos" insertion_ordered sample_sys branch' s =
       (out, s', Printed (header_line "Checkout") :: t) ∧
     s'.*1 = s.*1 ∧
     processed_in_order "/repos" (plain <$> s.*1) out t) ∧
  (∀ verbose, ∃ t,
     install clap "/repos" insertion_ordered sample_sys verbose s =
       (Returns tt, s, Printed (header_line "Install") :: t) ∧
     in_order "/repos" (cloudify_packages_of s) t ∧
     ((∀ p, p ∈ MANAGER_PACKAGES → p.1 ∉ all_repos clap) →
      cloudify_packages_of s =
        (plain <$> filter (.∉ NOT_PLAIN) s.*1) ++
        (if decide ("cloudify-manager" ∈ s.*1) then MANAGER_PACKAGES else []))).
Proof.
  intros lines s.
  assert (_parse_requirements clap lines MASTER [] = (Returns tt, s, [])) as Hparse
    by (by vm_compute).
  assert (s ≠ []) as Hs by done.
  split; [exact NoDup_REPOS|]. split; [exact Hparse|]. split; [exact Hs|].
  exact (sequential_order clap "/repos" insertion_ordered sample_sys lines MASTER s
           NoDup_REPOS Hparse Hs).
Defined.

(** C1 as stated fails for [install]: the RepoSet has [cloudify-manager]
    before [cloudify-premium], as the Catalogue does, and [install] takes
    [cloudify-premium] first and the packages of [cloudify-manager] after
    it. *)
Lemma install_takes_manager_last :
  _parse_requirements clap
      [text_line "cloudify-premium"; text_line "cloudify-manager"] MASTER [] =
    (Returns tt, [("cloudify-manager", "master"); ("cloudify-premium", "master")], []) ∧
  install clap "/repos" insertion_ordered quiet_sys false
      [("cloudify-manager", "master"); ("cloudify-premium", "master")] =
    (Returns tt, [("cloudify-manager", "master"); ("cloudify-premium", "master")],
     [Printed (header_line "Install");
      Ran ["pip"; "install"; "-e"; "/repos/cloudify-premium"];
      Ran ["pip"; "install"; "-e"; "/repos/cloudify-manager/rest-service"];
      Ran ["pip"; "install"; "-e"; "/repos/cloudify-manager/tests"];
      Ran ["pip"; "install"; "-e"; "/repos/cloudify-manager/workflows"]]).
Proof. split; by vm_compute. Qed.

(** An override source that names no repository of the Catalogue leaves
    [actual_repos] empty, and the commands then run as with no override:
    over the whole Catalogue. *)
Example override_naming_no_known_repository :
  (_parse_requirements clap [text_line "no-such-repo@1.0"] MASTER ≫=
     λ _, _get_repos clap insertion_ordered MASTER true) [] =
    (Returns ((λ repo, (repo, MASTER)) <$> REPOS), [], []).
Proof. by vm_compute. Qed.

(** With no override the RepoSet is a plain dict, and its order is the
    host's: on a host that iterates a dict from its last key to its first,
    [clone] starts with the last repository of the Catalogue. *)
Example no_override_order_is_the_hosts :
  (_get_repos clap reverse_ordered MASTER true []).1.1 =
    Returns (reverse ((λ repo, (repo, MASTER)) <$> REPOS)) ∧
  (_get_repos clap insertion_ordered MASTER true []).1.1 =
    Returns ((λ repo, (repo, MASTER)) <$> REPOS).
Proof. split; by vm_compute. Qed.

(** ** C10: install when no override has been parsed *)

Section InstallFacts.

Context (REPO_BASE : string) (host : HostDict) (sys : Facade).

Lemma elem_of_concat {A} (x : A) (ls : list (list A)) :
  x ∈ concat ls ↔ ∃ l, x ∈ l ∧ l ∈ ls.
Proof.
  induction ls as [|l ls IH]; simpl.
  - split; [by intros ?%elem_of_nil|]. by intros (l & _ & ?%elem_of_nil).
  - rewrite elem_of_app, IH. split.
    + intros [?|(l' & ? & ?)]; [exists l; split; [done|by left]|].
      exists l'. split; [done|by right].
    + intros (l' & Hx & [->|?]%elem_of_cons); [by left|]. right. by exists l'.
Qed.

Lemma install_turn_runs verbose name path s :
  Ran ["pip"; "install"; "-e"; os_path_join REPO_BASE path] ∈
    (install_turn REPO_BASE sys ["pip"] verbose (name, path) s).2.
Proof.
  unfold install_turn, try_except_Exception. rewrite !bind_run, sh_call_run.
  destruct (run sys _) as [out|e].
  - cbn -[for_ Py.split]. destruct (for_ _ _ s) as [[[[]|e] s'] t]; simpl; by left.
  - rewrite bind_run, print_run. simpl. by left.
Qed.

(** The RepoSet with no override: the whole catalogue at [branch], in the
    order of the host. *)
Lemma no_override_repo_set branch :
  dict_iteritems ((λ repo, (repo, branch)) <$> REPOS) ≡ₚ
    (λ repo, (repo, branch)) <$> REPOS ∧
  dict_iteritems ((λ repo, (repo, branch)) <$> CORE_REPOS) ≡ₚ
    (λ repo, (repo, branch)) <$> CORE_REPOS.
Proof.
  rewrite !dict_iteritems_perm, <- !od_of_perm. by split.
Qed.

End InstallFacts.

(** C10. With [actual_repos] empty, as it is when no override source has
    been parsed, [install] derives its packages from the RepoSet of all
    the repositories of the Catalogue, core and dev, at the default branch
    (in the order of the host's dict), for every value of its one argument;
    so the dev repositories with a package of their own are installed. The
    RepoSet with the core repositories only is what [_get_repos] gives for
    [dev=False], which [clone] can pass and [install] never does. *)
Theorem install_without_override (REPO_BASE : string) (host : HostDict)
    (sys : Facade) (verbose : bool) :
  ∃ (rs core : list (string * string)) (t : list event),
    rs ≡ₚ (λ repo, (repo, MASTER)) <$> CORE_REPOS ++ DEV_REPOS ∧
    _get_cloudify_packages clap host [] = (Returns (cloudify_packages_of rs), [], []) ∧
    install clap REPO_BASE host sys verbose [] =
      (Returns tt, [], Printed (header_line "Install") :: t) ∧
    in_order REPO_BASE (cloudify_packages_of rs) t ∧
    (∀ r, r ∈ DEV_REPOS → r ≠ "cloudify-dev" →
       plain r ∈ cloudify_packages_of rs ∧
       Ran ["pip"; "install"; "-e"; os_path_join REPO_BASE r] ∈ t) ∧
    _get_repos clap host MASTER false [] = (Returns core, [], []) ∧
    core ≡ₚ (λ repo, (repo, MASTER)) <$> CORE_REPOS.
Proof.
  destruct (no_override_repo_set host MASTER) as [Hall Hcore].
  set (rs := dict_iteritems ((λ repo, (repo, MASTER)) <$> REPOS)) in *.
  exists rs, (dict_iteritems ((λ repo, (repo, MASTER)) <$> CORE_REPOS)),
    (concat ((λ np, (install_turn REPO_BASE sys ["pip"] verbose np []).2) <$>
               cloudify_packages_of rs)).
  assert (rs.*1 ≡ₚ REPOS) as Hkeys.
  { rewrite Hall, <- list_fmap_compose. by rewrite list_fmap_id. }
  assert (cloudify_packages_of rs =
            (plain <$> filter (.∉ NOT_PLAIN) rs.*1) ++
            (if decide ("cloudify-manager" ∈ rs.*1) then MANAGER_PACKAGES else [])) as Hpk.
  { apply cloudify_packages_of_keys.
    - rewrite Hkeys. exact NoDup_REPOS.
    - intros p Hp. rewrite Hkeys. revert p Hp. apply Forall_forall.
      repeat apply Forall_cons_2; try apply Forall_nil_2;
        apply (bool_decide_unpack _); by vm_compute. }
  split_and!; [done|done| | | |done|done].
  - unfold install, _get_cloudify_packages.
    rewrite bind_run, print_header_run, !bind_run, get_repos_no_override.
    change (dict_iteritems _) with rs. cbn -[cloudify_packages_of for_ rs].
    rewrite for_stateless; [done|].
    intros np _. destruct (install_turn_about REPO_BASE sys verbose np []) as [(Hs & _) Hr].
    destruct (install_turn _ _ _ _ np []) as [[o s'] t]. simpl in *. by subst.
  - eexists. split; [done|].
    apply Forall2_fmap_r, Forall_Forall2_diag, Forall_forall. intros np _.
    destruct (install_turn_about REPO_BASE sys verbose np []) as [(_ & Hne & Hab) _]. done.
  - intros r Hr Hdev.
    assert (plain r ∈ cloudify_packages_of rs) as Hin.
    { rewrite Hpk. apply elem_of_app. left. apply list_elem_of_fmap. exists r.
      split; [done|]. apply list_elem_of_filter. split.
      - unfold DEV_REPOS in Hr. rewrite !elem_of_cons in Hr.
        destruct Hr as [->|[->|[->|Hr]]]; [| |done|by apply elem_of_nil in Hr];
          apply (bool_decide_unpack _); by vm_compute.
      - rewrite Hkeys. apply elem_of_app. by right. }
    split; [done|]. apply elem_of_concat. eexists. split; [apply install_turn_runs|].
    apply list_elem_of_fmap. by exists (plain r).
Qed.

(** ** The commands and the lines among the events *)

Section CommandFacts.

Lemma commands_of_app t1 t2 : commands_of (t1 ++ t2) = commands_of t1 ++ commands_of t2.
Proof. apply omap_app. Qed.

Lemma commands_of_concat ts : commands_of (concat ts) = concat (commands_of <$> ts).
Proof.
  induction ts as [|t ts IH]; [done|]. csimpl. by rewrite commands_of_app, IH.
Qed.

Lemma commands_of_printed {A} (f : A → string) (l : list A) :
  commands_of ((λ x, Printed (f x)) <$> l) = [].
Proof. induction l as [|x l IH]; [done|]. by csimpl. Qed.

Lemma concat_singletons {A B} (f : A → B) (l : list A) :
  concat ((λ x, [f x]) <$> l) = f <$> l.
Proof. induction l as [|x l IH]; [done|]. csimpl. by rewrite IH. Qed.

Lemma concat_filter {A B} (P : A → Prop) `{!∀ x, Decision (P x)} (f : A → B) (l : list A) :
  concat ((λ x, if decide (P x) then [f x] else []) <$> l) = f <$> filter P l.
Proof.
  induction l as [|x l IH]; [done|].
  csimpl. rewrite IH, filter_cons. by destruct (decide (P x)).
Qed.

Lemma sublist_concat_fmap {A B} (f g : A → list B) (l : list A) :
  (∀ x, f x `sublist_of` g x) → concat (f <$> l) `sublist_of` concat (g <$> l).
Proof.
  intros Hfg. induction l as [|x l IH]; [done|]. csimpl. by apply sublist_app.
Qed.

Lemma sublist_filter_impl {A} (P Q : A → Prop)
    `{!∀ x, Decision (P x), !∀ x, Decision (Q x)} (l : list A) :
  (∀ x, P x → Q x) → filter P l `sublist_of` filter Q l.
Proof.
  intros HPQ. induction l as [|x l IH]; [done|].
  rewrite !filter_cons.
  destruct (decide (P x)) as [HP|HP], (decide (Q x)) as [HQ|HQ].
  - by apply sublist_skip.
  - by destruct HQ; auto.
  - by apply sublist_cons.
  - done.
Qed.

End CommandFacts.

(** ** C8: pull, one thread per repository *)

Section PullFacts.

Context (REPO_BASE : string) (sys : Facade) (repos : list string).

#[local] Abbreviation step := (pull_step (length repos)).
#[local] Abbreviation inv := (pool_inv REPO_BASE sys repos).

Lemma events_of_snoc i j ev lg :
  events_of i (lg ++ [(j, ev)]) =
    events_of i lg ++ (if decide (j = i) then [ev] else []).
Proof.
  unfold events_of. rewrite filter_app, fmap_app. f_equal.
  rewrite filter_cons, filter_nil. simpl. by destruct (decide (j = i)).
Qed.

Lemma pool_inv_init : inv (pull_init REPO_BASE sys repos).
Proof.
  split_and!; simpl.
  - by rewrite length_fmap.
  - intros i repo Hi. rewrite list_lookup_fmap, Hi. done.
  - by intros ie ?%elem_of_nil.
  - split_and!; [lia| |lia].
    intros i _ Hi. rewrite list_lookup_fmap.
    destruct (lookup_lt_is_Some_2 repos i Hi) as [r ->]. by eexists.
Qed.

Lemma thread_inv_other repo emitted (ths : list thread) i j th :
  i ≠ j →
  thread_inv REPO_BASE sys repo emitted (ths !! i) →
  thread_inv REPO_BASE sys repo emitted (<[j := th]> ths !! i).
Proof. intros Hij. by rewrite list_lookup_insert_ne. Qed.

Lemma started_insert (ths : list thread) i j th :
  started (Some th) → started (ths !! i) → started (<[j := th]> ths !! i).
Proof.
  intros Hth Hi. destruct (decide (j = i)) as [->|Hne].
  - destruct (ths !! i) eqn:Hl; [|done].
    rewrite list_lookup_insert_eq; [done|]. by eapply lookup_lt_Some.
  - by rewrite list_lookup_insert_ne.
Qed.

Lemma pool_inv_step st st' : inv st → step st st' → inv st'.
Proof.
  intros (Hlen & Hth & Hlog & Hpc) Hstep.
  destruct Hstep as [i target ths lg Hi| ths lg | p i ev todo ths lg Hi
                    | p i ths lg Hi | i ths lg Hi | ths lg]; simpl in *.
  - (* start *)
    pose proof (lookup_lt_Some _ _ _ Hi) as Hlt.
    destruct Hpc as (Hk & Hun & Hst).
    split_and!; simpl; [by rewrite length_insert| |done|].
    + intros j repo Hj. specialize (Hth j repo Hj).
      destruct (decide (j = i)) as [->|Hne]; [|by apply thread_inv_other].
      rewrite Hi in Hth. destruct Hth as [-> ->].
      by rewrite list_lookup_insert_eq.
    + split_and!; [lia| |].
      * intros j Hj1 Hj2. rewrite list_lookup_insert_ne by lia. apply Hun; lia.
      * intros j Hj. destruct (decide (j = i)) as [->|Hne].
        -- by rewrite list_lookup_insert_eq.
        -- rewrite list_lookup_insert_ne by done. apply Hst. lia.
  - (* all started *)
    destruct Hpc as (Hk & Hun & Hst).
    split_and!; simpl; [done|done|done|]. split_and!; [lia|done|lia].
  - (* a thread emits an event *)
    pose proof (lookup_lt_Some _ _ _ Hi) as Hlt.
    split_and!; simpl; [by rewrite length_insert| | |].
    + intros j repo Hj. specialize (Hth j repo Hj). rewrite events_of_snoc.
      destruct (decide (i = j)) as [->|Hne].
      * rewrite Hi in Hth. rewrite list_lookup_insert_eq by done. simpl in *.
        by rewrite <- (assoc_L (++)).
      * rewrite (right_id_L [] (++)). by apply thread_inv_other.
    + intros ie [Hin| ->%list_elem_of_singleton]%elem_of_app; [by apply Hlog|].
      simpl. lia.
    + destruct p as [k|k|]; simpl in *.
      * destruct Hpc as (Hk & Hun & Hst). split_and!; [done| |].
        -- intros j Hj1 Hj2. destruct (decide (j = i)) as [->|Hne].
           ++ destruct (Hun i Hj1 Hj2) as [target Ht]. congruence.
           ++ rewrite list_lookup_insert_ne by done. by apply Hun.
        -- intros j Hj. by apply started_insert, Hst.
      * destruct Hpc as (Hk & Hst & Hfin). split_and!; [done| |].
        -- intros j Hj. by apply started_insert, Hst.
        -- intros j Hj. destruct (decide (j = i)) as [->|Hne].
           ++ rewrite (Hfin i Hj) in Hi. done.
           ++ rewrite list_lookup_insert_ne by done. by apply Hfin.
      * intros j Hj. destruct (decide (j = i)) as [->|Hne].
        -- rewrite (Hpc i Hj) in Hi. done.
        -- rewrite list_lookup_insert_ne by done. by apply Hpc.
  - (* a thread finishes *)
    pose proof (lookup_lt_Some _ _ _ Hi) as Hlt.
    split_and!; simpl; [by rewrite length_insert| |done|].
    + intros j repo Hj. specialize (Hth j repo Hj).
      destruct (decide (i = j)) as [->|Hne]; [|by apply thread_inv_other].
      rewrite Hi in Hth. rewrite list_lookup_insert_eq by done. simpl in *.
      by rewrite (right_id_L [] (++)) in Hth.
    + destruct p as [k|k|]; simpl in *.
      * destruct Hpc as (Hk & Hun & Hst). split_and!; [done| |].
        -- intros j Hj1 Hj2. destruct (decide (j = i)) as [->|Hne].
           ++ destruct (Hun i Hj1 Hj2) as [target Ht]. congruence.
           ++ rewrite list_lookup_insert_ne by done. by apply Hun.
        -- intros j Hj. by apply started_insert, Hst.
      * destruct Hpc as (Hk & Hst & Hfin). split_and!; [done| |].
        -- intros j Hj. by apply started_insert, Hst.
        -- intros j Hj. destruct (decide (j = i)) as [->|Hne].
           ++ by rewrite list_lookup_insert_eq.
           ++ rewrite list_lookup_insert_ne by done. by apply Hfin.
      * intros j Hj. destruct (decide (j = i)) as [->|Hne].
        -- by rewrite list_lookup_insert_eq.
        -- rewrite list_lookup_insert_ne by done. by apply Hpc.
  - (* join *)
    pose proof (lookup_lt_Some _ _ _ Hi) as Hlt.
    destruct Hpc as (Hk & Hst & Hfin).
    split_and!; simpl; [done|done|done|]. split_and!; [lia|done|].
    intros j Hj. destruct (decide (j = i)) as [->|Hne]; [done|]. apply Hfin. lia.
  - (* all joined *)
    destruct Hpc as (Hk & Hst & Hfin). split_and!; simpl; done.
Qed.

Lemma pool_inv_reachable st : pull_reachable REPO_BASE sys repos st → inv st.
Proof.
  unfold pull_reachable. revert st. apply rtc_ind_r; [apply pool_inv_init|].
  intros st st' _ Hstep Hinv. by apply (pool_inv_step st).
Qed.

End PullFacts.

Section PullProgress.

Context (REPO_BASE : string) (sys : Facade) (repos : list string).

#[local] Abbreviation step := (pull_step (length repos)).
#[local] Abbreviation inv := (pool_inv REPO_BASE sys repos).
#[local] Abbreviation measure := (pool_measure (length repos)).

Lemma sum_measure_insert (ths : list thread) i th th' :
  ths !! i = Some th →
  sum_list (thread_measure <$> <[i := th']> ths) + thread_measure th =
    sum_list (thread_measure <$> ths) + thread_measure th'.
Proof.
  revert i. induction ths as [|t ths IH]; intros i Hi; [done|].
  destruct i as [|i]; csimpl in *.
  - simplify_eq. lia.
  - specialize (IH i Hi). lia.
Qed.

Lemma pool_measure_step st st' : inv st → step st st' → measure st' < measure st.
Proof.
  intros (Hlen & _ & _ & Hpc) Hstep. unfold pool_measure.
  destruct Hstep as [i target ths lg Hi| ths lg | p i ev todo ths lg Hi
                    | p i ths lg Hi | i ths lg Hi | ths lg]; simpl in *.
  - pose proof (sum_measure_insert ths i _ (Running target) Hi). simpl in *. lia.
  - lia.
  - pose proof (sum_measure_insert ths i _ (Running todo) Hi). simpl in *. lia.
  - pose proof (sum_measure_insert ths i _ Finished Hi). simpl in *. lia.
  - pose proof (lookup_lt_Some _ _ _ Hi). lia.
  - lia.
Qed.

Lemma pool_progress st : inv st → pc st ≠ Returned → ∃ st', step st st'.
Proof.
  destruct st as [p ths lg]. intros (Hlen & _ & _ & Hpc) Hp. simpl in *.
  destruct p as [k|k|]; [| |done]; simpl in Hpc.
  - destruct Hpc as (Hk & Hun & _).
    destruct (decide (k = length repos)) as [->|Hne].
    + eexists. apply step_started.
    + destruct (Hun k) as [target Ht]; [lia..|]. eexists. by eapply step_start.
  - destruct Hpc as (Hk & Hst & _).
    destruct (decide (k = length repos)) as [->|Hne].
    + eexists. apply step_joined.
    + assert (k < length repos) as Hlt by lia. specialize (Hst k Hlt).
      destruct (ths !! k) as [[target|[|ev todo]|]|] eqn:Hth; try done.
      * eexists. by eapply (step_finish _ _ k).
      * eexists. by eapply (step_emit _ _ k).
      * eexists. by eapply step_join.
Qed.

(** From every state of the invariant the threads can be run to the end
    and joined: there is no state in which [pull] is stuck. *)
Lemma pool_completes st : inv st → ∃ st', rtc step st st' ∧ pc st' = Returned.
Proof.
  remember (measure st) as m eqn:Hm. revert st Hm.
  induction (lt_wf m) as [m _ IH]. intros st -> Hinv.
  assert (pc st = Returned ∨ pc st ≠ Returned) as [Hp|Hp]
    by (destruct (pc st); eauto).
  { by exists st. }
  destruct (pool_progress st Hinv Hp) as [st1 Hstep].
  destruct (IH (measure st1) (pool_measure_step _ _ Hinv Hstep) st1 eq_refl
              (pool_inv_step _ _ _ _ _ Hinv Hstep)) as (st' & Hrtc & Hret).
  exists st'. split; [by eapply rtc_l|done].
Qed.

Lemma pull_repo_run repo s :
  _pull_repo REPO_BASE sys repo s =
    let cmd := _git REPO_BASE repo ++ ["pull"] in
    match run sys cmd with
    | Returns out => (Returns tt, s, Ran cmd :: output_lines repo out)
    | Raises (ErrorReturnCode _) =>
        (Returns tt, s,
         Ran cmd :: output_lines repo "No upstream defined. Skipping pull.")
    | Raises e => (Raises e, s, [Ran cmd])
    end.
Proof.
  unfold _pull_repo, try_except_ErrorReturnCode. rewrite bind_run, sh_call_run.
  cbv zeta. destruct (run sys _) as [out|[msg|msg|msg]];
    cbn -[output_lines _parse_and_print_output]; by rewrite ?parse_and_print_run.
Qed.

Lemma pull_events_about repo :
  pull_events REPO_BASE sys repo ≠ [] ∧
  Forall (about REPO_BASE (plain repo)) (pull_events REPO_BASE sys repo).
Proof.
  unfold pull_events. rewrite pull_repo_run. cbv zeta.
  pose proof (git_about REPO_BASE repo ["pull"]) as Hgit.
  pose proof (output_lines_about REPO_BASE (plain repo)) as Hlines.
  destruct (run sys _) as [out|[msg|msg|msg]]; (split; [done|]);
    apply Forall_cons_2; try done; apply Hlines.
Qed.

(** What the thread of a repository emits. *)
Lemma pull_events_run repo :
  pull_events REPO_BASE sys repo =
    Ran (_git REPO_BASE repo ++ ["pull"]) ::
    match run sys (_git REPO_BASE repo ++ ["pull"]) with
    | Returns out => output_lines repo out
    | Raises (ErrorReturnCode _) =>
        output_lines repo "No upstream defined. Skipping pull."
    | Raises _ => []
    end.
Proof.
  unfold pull_events. rewrite pull_repo_run. cbv zeta.
  by destruct (run sys _) as [out|[msg|msg|msg]].
Qed.

Lemma lines_of_app t1 t2 : lines_of (t1 ++ t2) = lines_of t1 ++ lines_of t2.
Proof. apply omap_app. Qed.

Lemma lines_of_concat ts : lines_of (concat ts) = concat (lines_of <$> ts).
Proof.
  induction ts as [|t ts IH]; [done|]. csimpl. by rewrite lines_of_app, IH.
Qed.

Lemma lines_of_printed {A} (f : A → string) (l : list A) :
  lines_of ((λ x, Printed (f x)) <$> l) = f <$> l.
Proof. induction l as [|x l IH]; [done|]. csimpl. by rewrite IH. Qed.

Lemma pull_events_lines repo out :
  run sys (_git REPO_BASE repo ++ ["pull"]) = Returns out →
  lines_of (pull_events REPO_BASE sys repo) =
    (λ line, tagged_line repo (Fore.YELLOW +:+ line)) <$>
      filter (λ line, line ≠ "") (Py.split "010" out).
Proof.
  intros Hrun. rewrite pull_events_run, Hrun. unfold output_lines.
  change (lines_of (Ran ?c :: ?l)) with (lines_of l). apply lines_of_printed.
Qed.

Lemma events_of_cons i j ev lg :
  events_of i ((j, ev) :: lg) = (if decide (j = i) then [ev] else []) ++ events_of i lg.
Proof.
  unfold events_of. rewrite filter_cons. cbn [fst].
  by destruct (decide (j = i)).
Qed.

Lemma concat_one_more {A} (f : nat → list A) (x : A) (j : nat) (l : list nat) :
  NoDup l → j ∈ l →
  concat ((λ i, (if decide (j = i) then [x] else []) ++ f i) <$> l) ≡ₚ
    x :: concat (f <$> l).
Proof.
  induction l as [|i l IH]; intros Hnd Hj; [by apply elem_of_nil in Hj|].
  apply NoDup_cons in Hnd as [Hi Hnd]. csimpl.
  destruct (decide (j = i)) as [->|Hne].
  - rewrite (list_fmap_ext _ f l); [done|].
    intros _ k Hk%list_elem_of_lookup_2. rewrite decide_False; [done|]. by intros <-.
  - cbn [app]. apply elem_of_cons in Hj as [?|Hj]; [done|].
    rewrite (IH Hnd Hj). symmetry. apply Permutation_middle.
Qed.

(** The events of a log, thread by thread. *)
Lemma log_by_thread n (lg : list (nat * event)) :
  (∀ ie, ie ∈ lg → ie.1 < n) →
  lg.*2 ≡ₚ concat ((λ i, events_of i lg) <$> seq 0 n).
Proof.
  induction lg as [|[j ev] lg IH]; intros Hlg.
  - csimpl. induction (seq 0 n) as [|i l IHl]; [done|]. by csimpl.
  - rewrite (list_fmap_ext _ (λ i, (if decide (j = i) then [ev] else []) ++
                                    events_of i lg))
      by (intros _ i _; apply events_of_cons).
    rewrite concat_one_more.
    + rewrite fmap_cons. constructor. apply IH. intros ie Hie. apply Hlg. by right.
    + apply NoDup_seq.
    + apply elem_of_seq. specialize (Hlg (j, ev) (list_elem_of_here _ _)).
      simpl in Hlg. lia.
Qed.

Lemma events_by_repository (f : string → list event) (lg : list (nat * event))
    (l : list string) :
  (∀ i repo, l !! i = Some repo → events_of i lg = f repo) →
  (λ i, events_of i lg) <$> seq 0 (length l) = f <$> l.
Proof.
  intros Hev. apply list_eq. intros i. rewrite !list_lookup_fmap.
  destruct (l !! i) as [repo|] eqn:Hi.
  - rewrite lookup_seq_lt by (by eapply lookup_lt_Some). cbn.
    by rewrite (Hev i repo Hi).
  - rewrite lookup_seq_ge; [done|]. by apply lookup_ge_None.
Qed.

End PullProgress.

(** C8, as the code has it. [pull] makes one thread per repository of the
    RepoSet, the repositories being pairwise different; the thread of a
    repository runs [git pull] in it and prints a line tagged with the
    repository for every line of the output that is not empty, or the
    line for a missing upstream when the command returned non-zero.
    Whatever the order in which the threads take their steps: the run can
    always be brought to the return of [pull], and when [pull] has returned
    every thread has finished, the commands that have run are the pull
    commands of the repositories, one each, and the lines printed are the
    lines of the repositories, all of them and nothing else. A repository
    whose pull succeeds and prints nothing has no line. *)
Theorem pull_joins_every_thread (cat : Catalogue) (REPO_BASE : string)
    (host : HostDict) (sys : Facade) (s : odict) :
  NoDup s.*1 →
  ∃ rs : list (string * string),
    _get_repos cat host MASTER true s = (Returns rs, s, []) ∧
    pull_repos cat host s = (Returns rs.*1, s, [Printed (header_line "Pull")]) ∧
    NoDup rs.*1 ∧
    (∀ repo,
       pull_events REPO_BASE sys repo =
         Ran (_git REPO_BASE repo ++ ["pull"]) ::
         match run sys (_git REPO_BASE repo ++ ["pull"]) with
         | Returns out => output_lines repo out
         | Raises (ErrorReturnCode _) =>
             output_lines repo "No upstream defined. Skipping pull."
         | Raises _ => []
         end) ∧
    (∀ repo out,
       run sys (_git REPO_BASE repo ++ ["pull"]) = Returns out →
       lines_of (pull_events REPO_BASE sys repo) =
         (λ line, tagged_line repo (Fore.YELLOW +:+ line)) <$>
           filter (λ line, line ≠ "") (Py.split "010" out)) ∧
    (∀ st, pull_reachable REPO_BASE sys rs.*1 st →
       ∃ st', rtc (pull_step (length rs.*1)) st st' ∧ pc st' = Returned) ∧
    (∀ st, pull_reachable REPO_BASE sys rs.*1 st → pc st = Returned →
       length (threads st) = length rs ∧
       Forall (.= Finished) (threads st) ∧
       (∀ i repo, rs.*1 !! i = Some repo →
          events_of i (log st) = pull_events REPO_BASE sys repo) ∧
       (log st).*2 ≡ₚ concat (pull_events REPO_BASE sys <$> rs.*1) ∧
       commands_of (log st).*2 ≡ₚ (λ repo, _git REPO_BASE repo ++ ["pull"]) <$> rs.*1 ∧
       lines_of (log st).*2 ≡ₚ
         concat ((λ repo, lines_of (pull_events REPO_BASE sys repo)) <$> rs.*1)).
Proof.
  intros Hnd.
  set (rs := if decide (s = [])
             then dict_iteritems ((λ repo, (repo, MASTER)) <$> all_repos cat) else s).
  exists rs. split; [by rewrite get_repos_master|].
  split.
  { unfold pull_repos. by rewrite bind_run, print_header_run, bind_run, get_repos_master. }
  assert (NoDup rs.*1) as Hrs.
  { unfold rs. case_decide; [|done].
    rewrite dict_iteritems_perm. apply NoDup_fst_map_to_list. }
  split_and!; [done|apply pull_events_run|apply pull_events_lines| |].
  - intros st Hst. apply (pool_completes REPO_BASE sys).
    by apply pool_inv_reachable.
  - intros st Hst Hret.
    destruct (pool_inv_reachable REPO_BASE sys _ _ Hst) as (Hlen & Hth & Hlog & Hpc).
    rewrite Hret in Hpc. simpl in Hpc. rewrite length_fmap in *.
    assert (∀ i repo, rs.*1 !! i = Some repo →
              events_of i (log st) = pull_events REPO_BASE sys repo) as Hev.
    { intros i repo Hi. specialize (Hth i repo Hi).
      pose proof (lookup_lt_Some _ _ _ Hi) as Hlt. rewrite length_fmap in Hlt.
      by rewrite (Hpc i Hlt) in Hth. }
    assert ((log st).*2 ≡ₚ concat (pull_events REPO_BASE sys <$> rs.*1)) as Hall.
    { rewrite (log_by_thread (length rs)) by done.
      rewrite <- (length_fmap fst rs). by rewrite (events_by_repository _ _ _ Hev). }
    split_and!; [done| |done|done| |].
    + apply Forall_lookup. intros i th Hi.
      pose proof (lookup_lt_Some _ _ _ Hi) as Hlt. rewrite Hlen in Hlt.
      rewrite (Hpc i Hlt) in Hi. by simplify_eq.
    + unfold commands_of. rewrite Hall.
      fold (commands_of (concat (pull_events REPO_BASE sys <$> rs.*1))).
      rewrite commands_of_concat, <- list_fmap_compose.
      rewrite (list_fmap_ext _ (λ repo, [_git REPO_BASE repo ++ ["pull"]])).
      2: { intros _ repo _. cbn [compose]. rewrite pull_events_run.
           change (commands_of (Ran ?c :: ?l)) with (c :: commands_of l). f_equal.
           unfold output_lines.
           destruct (run sys _) as [out|[msg|msg|msg]]; by rewrite ?commands_of_printed. }
      by rewrite concat_singletons.
    + unfold lines_of at 1. rewrite Hall.
      fold (lines_of (concat (pull_events REPO_BASE sys <$> rs.*1))).
      by rewrite lines_of_concat, <- list_fmap_compose.
Qed.

Lemma pull_joins_every_thread_witness :
  let s := [("cloudify-cli", "master"); ("cloudify-agent", "3.4")] in
  NoDup s.*1 ∧
  ∃ rs : list (string * string),
    _get_repos clap insertion_ordered MASTER true s = (Returns rs, s, []) ∧
    pull_repos clap insertion_ordered s =
      (Returns rs.*1, s, [Printed (header_line "Pull")]) ∧
    NoDup rs.*1 ∧
    (∀ repo,
       pull_events "/repos" sample_sys repo =
         Ran (_git "/repos" repo ++ ["pull"]) ::
         match run sample_sys (_git "/repos" repo ++ ["pull"]) with
         | Returns out => output_lines repo out
         | Raises (ErrorReturnCode _) =>
             output_lines repo "No upstream defined. Skipping pull."
         | Raises _ => []
         end) ∧
    (∀ repo out,
       run sample_sys (_git "/repos" repo ++ ["pull"]) = Returns out →
       lines_of (pull_events "/repos" sample_sys repo) =
         (λ line, tagged_line repo (Fore.YELLOW +:+ line)) <$>
           filter (λ line, line ≠ "") (Py.split "010" out)) ∧
    (∀ st, pull_reachable "/repos" sample_sys rs.*1 st →
       ∃ st', rtc (pull_step (length rs.*1)) st st' ∧ pc st' = Returned) ∧
    (∀ st, pull_reachable "/repos" sample_sys rs.*1 st → pc st = Returned →
       length (threads st) = length rs ∧
       Forall (.= Finished) (threads st) ∧
       (∀ i repo, rs.*1 !! i = Some repo →
          events_of i (log st) = pull_events "/repos" sample_sys repo) ∧
       (log st).*2 ≡ₚ concat (pull_events "/repos" sample_sys <$> rs.*1) ∧
       commands_of (log st).*2 ≡ₚ (λ repo, _git "/repos" repo ++ ["pull"]) <$> rs.*1 ∧
       lines_of (log st).*2 ≡ₚ
         concat ((λ repo, lines_of (pull_events "/repos" sample_sys repo)) <$> rs.*1)).
Proof.
  intros s.
  assert (NoDup s.*1) as Hnd by (apply (bool_decide_unpack _); by vm_compute).
  split; [exact Hnd|].
  exact (pull_joins_every_thread clap "/repos" insertion_ordered sample_sys s Hnd).
Defined.

(** C8 as stated fails where a pull succeeds and prints nothing: over two
    repositories whose pulls print nothing, [pull] returns after two
    commands and no line at all, so there are not two reports. *)
Lemma pull_without_output_reports_nothing :
  let s := [("cloudify-cli", "master"); ("docl", "master")] in
  let cli := Ran (_git "/repos" "cloudify-cli" ++ ["pull"]) in
  let docl := Ran (_git "/repos" "docl" ++ ["pull"]) in
  let st := Pool Returned [Finished; Finished] [(1, docl); (0, cli)] in
  pull_repos clap insertion_ordered s =
    (Returns ["cloudify-cli"; "docl"], s, [Printed (header_line "Pull")]) ∧
  run quiet_sys (_git "/repos" "cloudify-cli" ++ ["pull"]) = Returns "" ∧
  run quiet_sys (_git "/repos" "docl" ++ ["pull"]) = Returns "" ∧
  _pull_repo "/repos" quiet_sys "cloudify-cli" s = (Returns tt, s, [cli]) ∧
  _pull_repo "/repos" quiet_sys "docl" s = (Returns tt, s, [docl]) ∧
  pull_reachable "/repos" quiet_sys ["cloudify-cli"; "docl"] st ∧
  lines_of (log st).*2 = [].
Proof.
  intros s cli docl st. split_and!; try by vm_compute.
  unfold pull_reachable.
  eapply rtc_l; [by apply (step_start _ 0)|]. simpl.
  eapply rtc_l; [by apply (step_start _ 1)|]. simpl.
  eapply rtc_l; [apply (step_started 2)|].
  eapply rtc_l; [by apply (step_emit _ _ 1)|]. simpl.
  eapply rtc_l; [by apply (step_emit _ _ 0)|]. simpl.
  eapply rtc_l; [by apply (step_finish _ _ 0)|]. simpl.
  eapply rtc_l; [by apply (step_finish _ _ 1)|]. simpl.
  eapply rtc_l; [by apply (step_join _ 0)|].
  eapply rtc_l; [by apply (step_join _ 1)|].
  eapply rtc_l; [apply (step_joined 2)|].
  apply rtc_refl.
Qed.

(** A run of [pull] over two repositories in which the second thread
    prints before the first. *)
Example pull_interleaved :
  let repos := ["cloudify-cli"; "cloudify-agent"] in
  let cli := Ran (_git "/repos" "cloudify-cli" ++ ["pull"]) in
  let cli_line :=
    Printed (tagged_line "cloudify-cli"
               (Fore.YELLOW +:+ "No upstream defined. Skipping pull.")) in
  let agent := Ran (_git "/repos" "cloudify-agent" ++ ["pull"]) in
  pull_reachable "/repos" sample_sys repos
    (Pool Returned [Finished; Finished] [(1, agent); (0, cli); (0, cli_line)]).
Proof.
  intros repos cli cli_line agent. unfold pull_reachable.
  eapply rtc_l; [by apply (step_start _ 0)|]. simpl.
  eapply rtc_l; [by apply (step_start _ 1)|]. simpl.
  eapply rtc_l; [apply (step_started 2)|].
  eapply rtc_l; [by apply (step_emit _ _ 1)|]. simpl.
  eapply rtc_l; [by apply (step_emit _ _ 0)|]. simpl.
  eapply rtc_l; [by apply (step_emit _ _ 0)|]. simpl.
  eapply rtc_l; [by apply (step_finish _ _ 0)|]. simpl.
  eapply rtc_l; [by apply (step_finish _ _ 1)|]. simpl.
  eapply rtc_l; [by apply (step_join _ 0)|].
  eapply rtc_l; [by apply (step_join _ 1)|].
  eapply rtc_l; [apply (step_joined 2)|].
  apply rtc_refl.
Qed.

(** * More properties of the commands *)

(** ** Printing the output of a command *)

Section OutputFacts.

Lemma split_nonempty sep s : Py.split sep s ≠ [].
Proof.
  destruct s as [|c s]; simpl; [done|].
  destruct (decide (c = sep)); [done|]. by destruct (Py.split sep s).
Qed.

Lemma split_app sep a b :
  Py.split sep (a +:+ String sep b) = Py.split sep a ++ Py.split sep b.
Proof.
  induction a as [|c a IH]; simpl.
  - by rewrite decide_True.
  - destruct (decide (c = sep)); [by rewrite IH|].
    rewrite IH. pose proof (split_nonempty sep a).
    by destruct (Py.split sep a).
Qed.

Lemma output_lines_app name a b :
  output_lines name (a +:+ String "010" b) = output_lines name a ++ output_lines name b.
Proof. unfold output_lines. by rewrite split_app, filter_app, fmap_app. Qed.

End OutputFacts.

(** [_parse_and_print_output] goes by the lines of the output. Printing
    [a], a line feed and [b] is printing [a], then printing [b]; a line
    feed at the end adds nothing and the empty output prints nothing. It
    never raises, leaves [actual_repos] alone, and prints as many lines as
    the output has lines that are not empty. *)
Theorem output_printed_line_by_line (repo a b : string) (s : odict) :
  _parse_and_print_output repo (a +:+ String "010" b) s =
    (_parse_and_print_output repo a ;; _parse_and_print_output repo b) s ∧
  _parse_and_print_output repo (a +:+ String "010" "") s =
    _parse_and_print_output repo a s ∧
  _parse_and_print_output repo "" s = (Returns tt, s, []) ∧
  (_parse_and_print_output repo a s).1 = (Returns tt, s) ∧
  length (_parse_and_print_output repo a s).2 =
    length (filter (λ line, line ≠ "") (Py.split "010" a)).
Proof.
  split_and!.
  - rewrite bind_run, !parse_and_print_run. by rewrite output_lines_app.
  - rewrite !parse_and_print_run, output_lines_app.
    change (output_lines repo "") with (@nil event).
    by rewrite (right_id_L [] (++)).
  - by rewrite parse_and_print_run.
  - by rewrite parse_and_print_run.
  - rewrite parse_and_print_run. unfold output_lines. cbn [snd].
    by rewrite length_fmap.
Qed.

(** ** The current branch or tag *)

Section StripFacts.

Lemma rstrip_idemp s : Py.rstrip (Py.rstrip s) = Py.rstrip s.
Proof.
  induction s as [|c s IH]; [done|]. simpl.
  destruct (Py.rstrip s) as [|d r] eqn:Hr.
  - destruct (Ascii.is_space c) eqn:Hc; [done|]. simpl. by rewrite Hc.
  - simpl. simpl in IH. by rewrite IH.
Qed.

Lemma rstrip_head c s :
  Ascii.is_space c = false → ∃ r, Py.rstrip (String c s) = String c r.
Proof.
  intros Hc. simpl. destruct (Py.rstrip s) as [|d r]; [|by eauto].
  rewrite Hc. by eauto.
Qed.

Lemma lstrip_head s :
  Py.lstrip s = "" ∨ ∃ c r, Py.lstrip s = String c r ∧ Ascii.is_space c = false.
Proof.
  induction s as [|c s IH]; [by left|]. simpl.
  destruct (Ascii.is_space c) eqn:Hc; [done|]. right. by eauto.
Qed.

Lemma strip_idemp s : Py.strip (Py.strip s) = Py.strip s.
Proof.
  unfold Py.strip. destruct (lstrip_head s) as [->|(c & r & -> & Hc)]; [done|].
  destruct (rstrip_head c r Hc) as [r' Hr']. rewrite Hr'.
  cbn [Py.lstrip]. rewrite Hc, <- Hr'. apply rstrip_idemp.
Qed.

End StripFacts.

(** When [_get_current_branch_or_tag] returns a name, the name has no
    white space at either end and is what [symbolic-ref] printed, or, when
    [symbolic-ref] returned non-zero, what [describe] printed;
    [describe] is run in that case only. [actual_repos] is left alone. *)
Theorem current_branch_or_tag_result (sys : Facade) (git : list string)
    (s s' : odict) (name : string) (t : list event) :
  _get_current_branch_or_tag sys git s = (Returns name, s', t) →
  s' = s ∧ Py.strip name = name ∧
  ((∃ out,
      run sys (symbolic_ref_command git) = Returns out ∧ name = Py.strip out ∧
      t = [Ran (symbolic_ref_command git)]) ∨
   (∃ msg out,
      run sys (symbolic_ref_command git) = Raises (ErrorReturnCode msg) ∧
      run sys (describe_command git) = Returns out ∧ name = Py.strip out ∧
      t = [Ran (symbolic_ref_command git); Ran (describe_command git)])).
Proof.
  rewrite current_branch_or_tag_run. cbv zeta.
  fold (symbolic_ref_command git) (describe_command git).
  destruct (run sys (symbolic_ref_command git)) as [out|[msg|msg|msg]] eqn:Hsym;
    [| |done|done].
  - intros [= <- <- <-]. split_and!; [done|apply strip_idemp|]. left. by eauto.
  - destruct (run sys (describe_command git)) as [out|e] eqn:Hdesc; [|done].
    intros [= <- <- <-]. split_and!; [done|apply strip_idemp|]. right. by eauto 10.
Qed.

Lemma current_branch_or_tag_result_witness :
  let git := _git "/repos" "cloudify-cli" in
  _get_current_branch_or_tag sample_sys git [] =
    (Returns "master", [], [Ran (symbolic_ref_command git)]) ∧
  Py.strip "master" = "master".
Proof.
  intros git.
  assert (_get_current_branch_or_tag sample_sys git [] =
            (Returns "master", [], [Ran (symbolic_ref_command git)])) as H
    by (by vm_compute).
  split; [exact H|].
  exact (proj1 (proj2 (current_branch_or_tag_result sample_sys git [] [] "master" _ H))).
Defined.

(** ** The lines of [status] *)

Section StatusFacts.

Context (REPO_BASE : string) (sys : Facade).

Lemma print_status_line_run line repo s :
  _print_status_line line repo s =
    (Returns tt, s,
     if Py.truthy line then [Printed (tagged_line repo (status_text line))] else []).
Proof.
  unfold _print_status_line, status_text. destruct (Py.truthy line); [|done]. simpl.
  by destruct (String.words line) as [|a [|b [|c l]]].
Qed.

Lemma concat_truthy {A} (f : string → A) (l : list string) :
  concat ((λ line, if Py.truthy line then [f line] else []) <$> l) =
    f <$> filter (λ line, line ≠ "") l.
Proof.
  induction l as [|line l IH]; [done|].
  csimpl. rewrite IH, filter_cons. by destruct line.
Qed.

End StatusFacts.

(** The turn of [status] for a repository whose two commands succeed: the
    line of the branch, then a line for every line of the output of
    [git status -s] that is not empty, a line of two words with the first
    in red and the second in green, any other line in green. For a clean
    working tree the line of the branch is all that is printed. *)
Theorem status_turn_lines (REPO_BASE : string) (sys : Facade)
    (repo b head out : string) (s : odict) :
  run sys (symbolic_ref_command (_git REPO_BASE repo)) = Returns head →
  run sys (_git REPO_BASE repo ++ ["status"; "-s"]) = Returns out →
  status_turn REPO_BASE sys (repo, b) s =
    (Returns tt, s,
     [Ran (symbolic_ref_command (_git REPO_BASE repo));
      Printed (tagged_line repo (Py.strip head));
      Ran (_git REPO_BASE repo ++ ["status"; "-s"])] ++
     ((λ line, Printed (tagged_line repo (status_text line))) <$>
        filter (λ line, line ≠ "") (Py.split "010" (Py.strip out)))) ∧
  (Py.strip out = "" →
   status_turn REPO_BASE sys (repo, b) s =
     (Returns tt, s,
      [Ran (symbolic_ref_command (_git REPO_BASE repo));
       Printed (tagged_line repo (Py.strip head));
       Ran (_git REPO_BASE repo ++ ["status"; "-s"])])).
Proof.
  intros Hsym Hst.
  assert (status_turn REPO_BASE sys (repo, b) s =
    (Returns tt, s,
     [Ran (symbolic_ref_command (_git REPO_BASE repo));
      Printed (tagged_line repo (Py.strip head));
      Ran (_git REPO_BASE repo ++ ["status"; "-s"])] ++
     ((λ line, Printed (tagged_line repo (status_text line))) <$>
        filter (λ line, line ≠ "") (Py.split "010" (Py.strip out))))) as Hrun.
  { unfold status_turn. rewrite bind_run, current_branch_or_tag_run. cbv zeta.
    unfold symbolic_ref_command in Hsym. rewrite Hsym.
    rewrite bind_run, print_run, bind_run, sh_call_run, Hst.
    rewrite (for_lines _ _ (λ line, if Py.truthy line
               then [Printed (tagged_line repo (status_text line))] else []))
      by (intros line; apply print_status_line_run).
    by rewrite concat_truthy. }
  split; [done|]. intros Hclean. rewrite Hrun, Hclean. done.
Qed.

Lemma status_turn_lines_witness :
  let git := _git "/repos" "docl" in
  let sys :=
    {| run cmd :=
         if bool_decide (cmd !! 6%nat = Some "status")
         then Returns (" M setup.py" +:+ String "010" ("?? notes.txt" +:+ String "010" ""))
         else Returns ("master" +:+ String "010" "");
       os_path_exists := λ _, true;
       os_makedirs := λ _, Returns tt |} in
  status_turn "/repos" sys ("docl", "master") [] =
    (Returns tt, [],
     [Ran (symbolic_ref_command git);
      Printed (tagged_line "docl" "master");
      Ran (git ++ ["status"; "-s"]);
      Printed (tagged_line "docl"
                 ((Fore.RED +:+ "M") +:+ " " +:+ (Fore.GREEN +:+ "setup.py")));
      Printed (tagged_line "docl"
                 ((Fore.RED +:+ "??") +:+ " " +:+ (Fore.GREEN +:+ "notes.txt")))]).
Proof.
  intros git sys.
  exact (proj1 (status_turn_lines "/repos" sys "docl" "master"
                  ("master" +:+ String "010" "")
                  (" M setup.py" +:+ String "010" ("?? notes.txt" +:+ String "010" ""))
                  [] eq_refl eq_refl)).
Defined.

(** ** The turns of [install] *)

Section InstallRunFacts.

Context (REPO_BASE : string) (sys : Facade).

Lemma print_install_line_run line name verbose s :
  _print_install_line line name verbose s =
    (Returns tt, s,
     if decide (line ≠ "" ∧ (verbose || Py.startswith "Successfully installed" line))
     then [Printed (tagged_line name (Fore.YELLOW +:+ line))] else []).
Proof.
  unfold _print_install_line. destruct line as [|c line].
  - cbn [Py.truthy negb]. case_decide as H; [by destruct H|done].
  - cbn [Py.truthy negb].
    destruct (verbose || Py.startswith "Successfully installed" (String c line)) eqn:Hb.
    + rewrite print_run. case_decide as H; [done|]. by destruct H.
    + case_decide as H; [|done]. by destruct H as [_ H].
Qed.

(** A turn of [install]: the command, then the lines of its output or the
    line of its failure; it returns whatever the failure is. *)
Lemma install_turn_run verbose name path s :
  install_turn REPO_BASE sys ["pip"] verbose (name, path) s =
    (Returns tt, s,
     Ran (pip_command REPO_BASE path) ::
     match run sys (pip_command REPO_BASE path) with
     | Returns out => install_lines verbose name out
     | Raises e => [install_error_line name e]
     end).
Proof.
  unfold install_turn, try_except_Exception. rewrite !bind_run, sh_call_run.
  change (["pip"] ++ ["install"; "-e"; os_path_join REPO_BASE path])
    with (pip_command REPO_BASE path).
  destruct (run sys (pip_command REPO_BASE path)) as [out|e].
  - cbn -[for_ Py.split install_lines].
    rewrite (for_lines _ _ (λ line,
               if decide (line ≠ "" ∧
                          (verbose || Py.startswith "Successfully installed" line))
               then [Printed (tagged_line name (Fore.YELLOW +:+ line))] else []))
      by (intros line; apply print_install_line_run).
    by rewrite concat_filter.
  - by rewrite bind_run, print_run.
Qed.

Lemma install_run cat host verbose s :
  install cat REPO_BASE host sys verbose s =
    (Returns tt, s,
     Printed (header_line "Install") ::
     concat ((λ np, (install_turn REPO_BASE sys ["pip"] verbose np s).2) <$>
               cloudify_packages_of
                 (if decide (s = [])
                  then dict_iteritems ((λ repo, (repo, MASTER)) <$> all_repos cat)
                  else s))).
Proof.
  unfold install, _get_cloudify_packages.
  rewrite bind_run, print_header_run, !bind_run, get_repos_master.
  cbn -[cloudify_packages_of for_ dict_iteritems].
  rewrite for_stateless; [done|].
  intros [name path] _. by rewrite install_turn_run.
Qed.

End InstallRunFacts.

(** [install] runs pip once for every package derived from the RepoSet, in
    the order of the derivation, whatever the outcome of the commands
    before: a failure of pip, of any kind, is printed as a line of its
    package with the text of the failure, and [install] goes on to the next
    package and returns. *)
Theorem install_attempts_every_package (cat : Catalogue) (REPO_BASE : string)
    (host : HostDict) (sys : Facade) (verbose : bool) (s : odict) :
  ∃ (rs : list (string * string)) (t : list event),
    _get_repos cat host MASTER true s = (Returns rs, s, []) ∧
    install cat REPO_BASE host sys verbose s = (Returns tt, s, t) ∧
    commands_of t = pip_command REPO_BASE <$> (cloudify_packages_of rs).*2 ∧
    (∀ name path e,
       (name, path) ∈ cloudify_packages_of rs →
       run sys (pip_command REPO_BASE path) = Raises e →
       install_error_line name e ∈ t).
Proof.
  eexists _, _. split; [apply get_repos_master|]. split; [apply install_run|].
  set (rs := if decide (s = [])
             then dict_iteritems ((λ repo, (repo, MASTER)) <$> all_repos cat) else s). split.
  - change (commands_of (?x :: ?l)) with (commands_of l).
    rewrite commands_of_concat, <- !list_fmap_compose.
    rewrite <- (concat_singletons (pip_command REPO_BASE ∘ snd)). f_equal.
    apply list_fmap_ext. intros _ [name path] _. cbn [compose snd].
    rewrite install_turn_run. cbn [snd].
    change (commands_of (Ran ?c :: ?l)) with (c :: commands_of l). f_equal.
    destruct (run sys _) as [out|e]; [|done]. apply commands_of_printed.
  - intros name path e Hin Hrun. right. apply elem_of_concat.
    eexists. split; [|apply list_elem_of_fmap; by exists (name, path)].
    rewrite install_turn_run, Hrun. cbn [snd]. right. by left.
Qed.

(** What [install] prints without [verbose] is among what it prints with
    [verbose], in the same order, and the commands it runs are the same:
    [verbose] adds lines and changes nothing else. *)
Theorem install_verbose_adds_lines (cat : Catalogue) (REPO_BASE : string)
    (host : HostDict) (sys : Facade) (s : odict) :
  ∃ quiet loud : list event,
    install cat REPO_BASE host sys false s = (Returns tt, s, quiet) ∧
    install cat REPO_BASE host sys true s = (Returns tt, s, loud) ∧
    quiet `sublist_of` loud ∧
    commands_of quiet = commands_of loud ∧
    (∀ name path out,
       run sys (pip_command REPO_BASE path) = Returns out →
       (install_turn REPO_BASE sys ["pip"] true (name, path) s).2 =
         Ran (pip_command REPO_BASE path) :: output_lines name out).
Proof.
  eexists _, _. split; [apply install_run|]. split; [apply install_run|].
  set (rs := if decide (s = [])
             then dict_iteritems ((λ repo, (repo, MASTER)) <$> all_repos cat) else s). split_and!.
  - apply sublist_skip, sublist_concat_fmap. intros [name path].
    rewrite !install_turn_run. cbn [snd]. apply sublist_skip.
    destruct (run sys _) as [out|e]; [|done].
    apply fmap_sublist, sublist_filter_impl. intros line [Hne _]. by split.
  - change (commands_of (?x :: ?l)) with (commands_of l).
    rewrite !commands_of_concat, <- !list_fmap_compose. f_equal.
    apply list_fmap_ext. intros _ [name path] _. cbn [compose].
    rewrite !install_turn_run. cbn [snd].
    change (commands_of (Ran ?c :: ?l)) with (c :: commands_of l). f_equal.
    destruct (run sys _) as [out|e]; [|done].
    unfold install_lines. by rewrite !commands_of_printed.
  - intros name path out Hrun. rewrite install_turn_run, Hrun. cbn [snd]. f_equal.
    unfold install_lines, output_lines. f_equal.
    apply filter_ext_in. intros line _. cbn [orb]. split; [by intros []|by split].
Qed.

(** ** The commands of [checkout] and [clone] *)

Section CheckoutCloneFacts.

Context (cat : Catalogue) (REPO_BASE : string) (host : HostDict) (sys : Facade).



Lemma clone_run shallow dev s :
  (∀ cmd e, run sys cmd = Raises e → ∃ msg, e = ErrorReturnCode msg) →
  (os_path_exists sys REPO_BASE = false → os_makedirs sys REPO_BASE = Returns tt) →
  clone cat REPO_BASE host sys shallow dev s =
    (Returns tt, s,
     clone_preamble REPO_BASE sys ++
     concat ((λ rb, (clone_turn REPO_BASE sys ["git"] shallow rb s).2) <$>
               (if decide (s = [])
                then dict_iteritems ((λ repo, (repo, MASTER)) <$>
                                       (if dev then all_repos cat else core_repos cat))
                else s))).
Proof.
  intros Hsys Hbase. unfold clone, clone_preamble.
  rewrite bind_run, print_header_run, bind_run, create_repo_base_run.
  destruct (os_path_exists sys REPO_BASE).
  - rewrite bind_run, get_repos_master.
    by rewrite for_stateless by (intros; by apply clone_turn_returns).
  - rewrite Hbase by done. rewrite bind_run, get_repos_master.
    by rewrite for_stateless by (intros; by apply clone_turn_returns).
Qed.

Lemma clone_turn_commands shallow repo ref s :
  commands_of (clone_turn REPO_BASE sys ["git"] shallow (repo, ref) s).2 =
    [clone_command REPO_BASE repo ref shallow].
Proof.
  rewrite clone_turn_run. cbv zeta. unfold clone_report, output_lines.
  destruct (run sys _) as [out|[msg|msg|msg]]; cbn [snd];
    rewrite ?commands_of_app, !commands_of_printed; reflexivity.
Qed.

End CheckoutCloneFacts.



(** With no override in place and git only failing by a non-zero return,
    [clone] runs [git clone] once for every repository of the Catalogue,
    or of its core part when [dev] is false, each at the default branch,
    with [--depth 1] when [shallow]; it runs no other command. *)
Theorem clone_without_override (cat : Catalogue) (REPO_BASE : string)
    (host : HostDict) (sys : Facade) (shallow dev : bool) :
  NoDup (all_repos cat) →
  (∀ cmd e, run sys cmd = Raises e → ∃ msg, e = ErrorReturnCode msg) →
  (os_path_exists sys REPO_BASE = false → os_makedirs sys REPO_BASE = Returns tt) →
  ∃ t : list event,
    clone cat REPO_BASE host sys shallow dev [] =
      (Returns tt, [], clone_preamble REPO_BASE sys ++ t) ∧
    commands_of (clone_preamble REPO_BASE sys) = [] ∧
    commands_of t ≡ₚ
      (λ repo, clone_command REPO_BASE repo MASTER shallow) <$>
        (if dev then all_repos cat else core_repos cat).
Proof.
  intros Hcat Hsys Hbase. eexists. split; [by apply clone_run|]. split.
  { unfold clone_preamble. by destruct (os_path_exists sys REPO_BASE). }
  rewrite decide_True by done.
  set (l := if dev then all_repos cat else core_repos cat).
  assert (NoDup l) as Hl.
  { unfold l. destruct dev; [done|]. by apply NoDup_app in Hcat as (? & _ & _). }
  rewrite commands_of_concat, <- list_fmap_compose.
  rewrite (list_fmap_ext _ (λ rb, [clone_command REPO_BASE rb.1 rb.2 shallow]))
    by (intros _ [repo ref] _; apply clone_turn_commands).
  rewrite concat_singletons, (dict_iteritems_const host MASTER l Hl).
  by rewrite <- list_fmap_compose.
Qed.

Lemma clone_without_override_witness :
  NoDup (all_repos clap) ∧
  (∀ cmd e, run sample_sys cmd = Raises e → ∃ msg, e = ErrorReturnCode msg) ∧
  (os_path_exists sample_sys "/repos" = false →
   os_makedirs sample_sys "/repos" = Returns tt) ∧
  ∃ t : list event,
    clone clap "/repos" reverse_ordered sample_sys true false [] =
      (Returns tt, [], clone_preamble "/repos" sample_sys ++ t) ∧
    commands_of (clone_preamble "/repos" sample_sys) = [] ∧
    commands_of t ≡ₚ
      (λ repo, clone_command "/repos" repo MASTER true) <$> core_repos clap.
Proof.
  assert (os_path_exists sample_sys "/repos" = false →
          os_makedirs sample_sys "/repos" = Returns tt) as Hbase by done.
  split; [exact NoDup_REPOS|]. split; [exact sample_sys_failures|].
  split; [exact Hbase|].
  exact (clone_without_override clap "/repos" reverse_ordered sample_sys true false
           NoDup_REPOS sample_sys_failures Hbase).
Defined.

(** When the base directory is missing and cannot be made, [clone] prints
    its header and [Creating base repos dir], and the failure of
    [os.makedirs] is raised out of it: no repository is cloned, and [setup]
    stops there too, before [status] and [install]. *)
Theorem clone_stops_when_base_cannot_be_made (cat : Catalogue) (REPO_BASE : string)
    (host : HostDict) (sys : Facade) (shallow dev : bool) (branch : string)
    (e : exn) (s : odict) :
  os_path_exists sys REPO_BASE = false →
  os_makedirs sys REPO_BASE = Raises e →
  clone cat REPO_BASE host sys shallow dev s =
    (Raises e, s,
     [Printed (header_line "Clone");
      Printed ("Creating base repos dir: " +:+ REPO_BASE);
      MadeDirs REPO_BASE]) ∧
  setup cat REPO_BASE host sys branch None s =
    (Raises e, s,
     [Printed (header_line "Clone");
      Printed ("Creating base repos dir: " +:+ REPO_BASE);
      MadeDirs REPO_BASE]).
Proof.
  intros Hexists Hmake.
  assert (∀ shallow' dev',
    clone cat REPO_BASE host sys shallow' dev' s =
      (Raises e, s,
       [Printed (header_line "Clone");
        Printed ("Creating base repos dir: " +:+ REPO_BASE);
        MadeDirs REPO_BASE])) as Hclone.
  { intros shallow' dev'. unfold clone.
    rewrite bind_run, print_header_run, bind_run, create_repo_base_run.
    by rewrite Hexists, Hmake. }
  split; [apply Hclone|].
  unfold setup. rewrite bind_run. cbn [ret mret M_ret]. unfold ret.
  by rewrite bind_run, Hclone.
Qed.

Lemma clone_stops_when_base_cannot_be_made_witness :
  let e := OSError "[Errno 13] Permission denied: '/repos'" in
  let t := [Printed (header_line "Clone");
            Printed ("Creating base repos dir: " +:+ "/repos");
            MadeDirs "/repos"] in
  os_path_exists read_only_sys "/repos" = false ∧
  os_makedirs read_only_sys "/repos" = Raises e ∧
  clone clap "/repos" insertion_ordered read_only_sys true true [] = (Raises e, [], t) ∧
  setup clap "/repos" insertion_ordered read_only_sys MASTER None [] = (Raises e, [], t).
Proof.
  intros e t. split; [reflexivity|]. split; [reflexivity|].
  exact (clone_stops_when_base_cannot_be_made clap "/repos" insertion_ordered
           read_only_sys true true MASTER e [] eq_refl eq_refl).
Defined.

(** ** [setup]: what runs after a failure *)

Section GitOnlyFacts.

Context (cat : Catalogue) (REPO_BASE : string) (host : HostDict) (sys : Facade).

(** What holds of the events of every turn holds of the events of the
    loop, wherever it stops. *)
Lemma for_events {A} (P : event → Prop) (l : list A) (body : A → M unit) s :
  (∀ x s', Forall P (body x s').2) → Forall P (for_ l body s).2.
Proof.
  intros Hb. revert s. induction l as [|x l IH]; intros s; [by constructor|].
  cbn [for_]. rewrite bind_run. specialize (Hb x s) as Hx.
  destruct (body x s) as [[[[]|e] s'] t]; [|done].
  specialize (IH s'). destruct (for_ l body s') as [[r s''] t']. cbn [snd] in *.
  apply Forall_app. by split.
Qed.

Lemma output_lines_git_only name output : Forall git_only (output_lines name output).
Proof. apply Forall_fmap, Forall_forall. by intros line _. Qed.

Lemma clone_git_only shallow dev s :
  Forall git_only (clone cat REPO_BASE host sys shallow dev s).2.
Proof.
  unfold clone. rewrite bind_run, print_header_run, bind_run, create_repo_base_run.
  assert (∀ pre, Forall git_only pre →
    Forall git_only
      (let '(r, s'', t') :=
         (_get_repos cat host MASTER dev ≫= λ repos,
          for_ repos (clone_turn REPO_BASE sys ["git"] shallow)) s
       in (r, s'', pre ++ t')).2) as Hloop.
  { intros pre Hpre. rewrite bind_run, get_repos_master.
    pose proof (for_events git_only
      (if decide (s = [])
       then dict_iteritems ((λ repo, (repo, MASTER)) <$>
                              (if dev then all_repos cat else core_repos cat))
       else s) (clone_turn REPO_BASE sys ["git"] shallow) s) as Hfor.
    destruct (for_ _ _ s) as [[r s'] t]. cbn [snd] in *.
    apply Forall_app. split; [done|]. apply Hfor.
    intros [repo ref] s1. rewrite clone_turn_run. cbv zeta. unfold clone_report.
    destruct (run sys _) as [out|[msg|msg|msg]]; cbn [snd];
      repeat (apply Forall_app; split); try apply output_lines_git_only;
      by apply Forall_singleton. }
  destruct (os_path_exists sys REPO_BASE).
  - specialize (Hloop [] (Forall_nil_2 _)).
    destruct ((_get_repos cat host MASTER dev ≫= _) s) as [[r s'] t].
    cbn [snd] in *. by apply Forall_cons_2.
  - destruct (os_makedirs sys REPO_BASE) as [[]|e].
    + specialize (Hloop [Printed ("Creating base repos dir: " +:+ REPO_BASE);
                         MadeDirs REPO_BASE]).
      destruct ((_get_repos cat host MASTER dev ≫= _) s) as [[r s'] t].
      cbn [snd] in *. apply Forall_cons_2; [done|]. apply Hloop.
      by repeat constructor.
    + by repeat constructor.
Qed.

Lemma status_turn_git_only rb s : Forall git_only (status_turn REPO_BASE sys rb s).2.
Proof.
  destruct rb as [repo b]. unfold status_turn.
  rewrite bind_run, current_branch_or_tag_run. cbv zeta.
  assert (∀ pre branch, Forall git_only pre →
    Forall git_only
      (let '(r, s'', t') :=
         (_print repo branch ≫= λ _,
          sh_call sys (_git REPO_BASE repo) ["status"; "-s"] ≫= λ out,
          for_ (Py.split "010" (Py.strip out))
            (λ line, _print_status_line line repo)) s
       in (r, s'', pre ++ t')).2) as Hrest.
  { intros pre branch Hpre. rewrite bind_run, print_run, bind_run, sh_call_run.
    destruct (run sys _) as [out|e].
    - pose proof (for_events git_only (Py.split "010" (Py.strip out))
                    (λ line, _print_status_line line repo) s) as Hfor.
      destruct (for_ _ _ s) as [[r s'] t]. cbn [snd] in *.
      apply Forall_app. split; [done|].
      apply Forall_cons_2; [done|]. apply Forall_cons_2; [done|]. apply Hfor.
      intros line s1. rewrite print_status_line_run. cbn [snd].
      destruct (Py.truthy line); by repeat constructor.
    - cbn [snd]. apply Forall_app. split; [done|]. by repeat constructor. }
  destruct (run sys (_ ++ ["symbolic-ref"; _; _; _])) as [out|[msg|msg|msg]].
  - apply Hrest. by repeat constructor.
  - destruct (run sys (_ ++ ["describe"; _; _])) as [out|e].
    + apply Hrest. by repeat constructor.
    + by repeat constructor.
  - by repeat constructor.
  - by repeat constructor.
Qed.

Lemma status_git_only s : Forall git_only (status cat REPO_BASE host sys s).2.
Proof.
  unfold status. rewrite bind_run, print_header_run, bind_run, get_repos_master.
  pose proof (for_events git_only
    (if decide (s = [])
     then dict_iteritems ((λ repo, (repo, MASTER)) <$> all_repos cat) else s)
    (status_turn REPO_BASE sys) s) as Hfor.
  destruct (for_ _ _ s) as [[r s'] t]. cbn [snd] in *.
  apply Forall_cons_2; [done|]. apply Hfor. intros rb s1. apply status_turn_git_only.
Qed.

End GitOnlyFacts.

(** When [status] raises in [setup], after [clone] has returned, [setup]
    ends with that failure and [install] is not run: the events of [setup]
    are those of [clone] and of [status], and every command among them is
    a command of git, none of pip. *)
Theorem setup_installs_nothing_when_status_fails (cat : Catalogue)
    (REPO_BASE : string) (host : HostDict) (sys : Facade) (branch : string)
    (requirements : option (list string)) (s s0 s1 s2 : odict)
    (t1 t2 : list event) (e : exn) :
  resolve cat branch requirements s = (Returns tt, s0, []) →
  clone cat REPO_BASE host sys true true s0 = (Returns tt, s1, t1) →
  status cat REPO_BASE host sys s1 = (Raises e, s2, t2) →
  setup cat REPO_BASE host sys branch requirements s = (Raises e, s2, t1 ++ t2) ∧
  Forall git_only (t1 ++ t2) ∧
  (∀ path, pip_command REPO_BASE path ∉ commands_of (t1 ++ t2)).
Proof.
  intros Hres Hclone Hstatus.
  assert (Forall git_only (t1 ++ t2)) as Hgit.
  { apply Forall_app. split.
    - pose proof (clone_git_only cat REPO_BASE host sys true true s0) as H.
      by rewrite Hclone in H.
    - pose proof (status_git_only cat REPO_BASE host sys s1) as H.
      by rewrite Hstatus in H. }
  split_and!; [|done|].
  - unfold setup. fold (resolve cat branch requirements).
    by rewrite bind_run, Hres, bind_run, Hclone, bind_run, Hstatus.
  - intros path Hin. apply list_elem_of_omap in Hin as (ev & Hev & Hcmd).
    rewrite Forall_forall in Hgit. specialize (Hgit ev Hev).
    destruct ev as [line|cmd|dir]; simplify_eq/=.
Qed.

Lemma setup_installs_nothing_when_status_fails_witness :
  let lines := [text_line "cloudify-agent"] in
  let s := [("cloudify-agent", "master")] in
  let e := ErrorReturnCode "fatal: no tag exactly matches 'a1b2c3d'" in
  let t1 := (clone clap "/repos" insertion_ordered sample_sys true true s).2 in
  let t2 := (status clap "/repos" insertion_ordered sample_sys s).2 in
  resolve clap MASTER (Some lines) [] = (Returns tt, s, []) ∧
  clone clap "/repos" insertion_ordered sample_sys true true s = (Returns tt, s, t1) ∧
  status clap "/repos" insertion_ordered sample_sys s = (Raises e, s, t2) ∧
  setup clap "/repos" insertion_ordered sample_sys MASTER (Some lines) [] =
    (Raises e, s, t1 ++ t2) ∧
  Forall git_only (t1 ++ t2) ∧
  (∀ path, pip_command "/repos" path ∉ commands_of (t1 ++ t2)).
Proof.
  intros lines s e t1 t2.
  assert (resolve clap MASTER (Some lines) [] = (Returns tt, s, [])) as Hres
    by (by vm_compute).
  assert (clone clap "/repos" insertion_ordered sample_sys true true s =
            (Returns tt, s, t1)) as Hclone by (by vm_compute).
  assert (status clap "/repos" insertion_ordered sample_sys s = (Raises e, s, t2))
    as Hstatus by (by vm_compute).
  split; [exact Hres|]. split; [exact Hclone|]. split; [exact Hstatus|].
  exact (setup_installs_nothing_when_status_fails clap "/repos" insertion_ordered
           sample_sys MASTER (Some lines) [] s s s t1 t2 e Hres Hclone Hstatus).
Defined.

(** ** More on the override source *)

Section RebuildFacts.

Context (cat : Catalogue).

Lemma rebuild_ext (m1 m2 : gmap string string) l s :
  (∀ r, r ∈ l → m1 !! r = m2 !! r) → rebuild m1 l s = rebuild m2 l s.
Proof.
  revert s. induction l as [|r l IH]; intros s Hl; [done|].
  cbn [rebuild foldl]. rewrite <- (Hl r) by (by left).
  apply IH. intros r' Hr'. apply Hl. by right.
Qed.

Lemma rebuild_none (m : gmap string string) l s :
  (∀ r, r ∈ l → m !! r = None) → rebuild m l s = s.
Proof.
  revert s. induction l as [|r l IH]; intros s Hl; [done|].
  cbn [rebuild foldl]. rewrite (Hl r) by (by left).
  apply IH. intros r' Hr'. apply Hl. by right.
Qed.

(** The second loop only assigns: the entries that were there stay where
    they are, and a key that comes in is a repository of the Catalogue. *)
Lemma rebuild_keys (m : gmap string string) l (s : odict) :
  ∃ new, (rebuild m l s).*1 = s.*1 ++ new ∧ new ⊆ l.
Proof.
  revert s. induction l as [|r l IH]; intros s.
  - exists []. by rewrite (right_id_L [] (++)).
  - cbn [rebuild foldl]. destruct (m !! r) as [b|].
    + destruct (IH (od_set r b s)) as (new & Hk & Hnew).
      fold (rebuild m l (od_set r b s)). rewrite Hk, od_set_keys.
      case_decide.
      * exists new. split; [done|]. intros x Hx. right. by apply Hnew.
      * exists (r :: new). rewrite <- (assoc_L (++)). split; [done|].
        intros x [->|Hx]%elem_of_cons; [by left|]. right. by apply Hnew.
    + destruct (IH s) as (new & Hk & Hnew). exists new. split; [done|].
      intros x Hx. right. by apply Hnew.
Qed.

Lemma parse_line_blank branch line :
  Py.strip line = "" → parse_line branch line = Returns ("", branch).
Proof. intros H. unfold parse_line. by rewrite H. Qed.

(** Blank lines only assign the key that is the empty name. *)
Lemma parse_lines_blank branch lines (m1 m2 : gmap string string) :
  (∀ k, k ≠ "" → m1 !! k = m2 !! k) →
  match parse_lines branch (filter (λ line, Py.strip line ≠ "") lines) m1,
        parse_lines branch lines m2 with
  | Returns a, Returns b => ∀ k, k ≠ "" → a !! k = b !! k
  | Raises e1, Raises e2 => e1 = e2
  | _, _ => False
  end.
Proof.
  revert m1 m2. induction lines as [|line lines IH]; intros m1 m2 Hm; [done|].
  rewrite filter_cons. destruct (decide (Py.strip line ≠ "")) as [Hne|Heq].
  - cbn [parse_lines]. destruct (parse_line branch line) as [[r b]|e]; [|done].
    apply IH. intros k Hk. destruct (decide (r = k)) as [->|Hrk].
    + by rewrite !lookup_insert_eq.
    + rewrite !lookup_insert_ne by done. by apply Hm.
  - apply dec_stable in Heq. cbn [parse_lines]. rewrite parse_line_blank by done.
    apply IH. intros k Hk. rewrite lookup_insert_ne by done. by apply Hm.
Qed.

Lemma parse_lines_one_at branch lines m :
  Forall (λ line, Py.count "@" line ≤ 1) lines →
  ∃ m', parse_lines branch lines m = Returns m'.
Proof.
  intros Hl. revert m. induction Hl as [|line lines Hline _ IH]; intros m.
  - by eexists.
  - cbn [parse_lines].
    assert (∃ e, parse_line branch line = Returns e) as [[r b] ->]; [|apply IH].
    unfold parse_line. rewrite contains_char.
    case_bool_decide as Hc; [|by eauto].
    pose proof (split_length "@" (Py.strip line)) as Hlen.
    rewrite strip_count in * by done.
    destruct (Py.split "@" (Py.strip line)) as [|a [|b [|c l]]]; simpl in Hlen;
      [lia|lia|by eauto|lia].
Qed.

End RebuildFacts.

(** When no line of the override source has more than one [@],
    [_parse_requirements] returns, without an event. It only assigns to
    [actual_repos]: the entries that were there are still there, at their
    places, and the keys that come after them are repositories of the
    Catalogue; nothing is ever removed. *)
Theorem parse_requirements_returns (cat : Catalogue) (branch : string)
    (lines : list string) (s : odict) :
  Forall (λ line, Py.count "@" line ≤ 1) lines →
  ∃ (s' : odict) (new : list string),
    _parse_requirements cat lines branch s = (Returns tt, s', []) ∧
    s'.*1 = s.*1 ++ new ∧
    new ⊆ all_repos cat.
Proof.
  intros Hl. destruct (parse_lines_one_at branch lines ∅ Hl) as [m Hm].
  destruct (rebuild_keys m (all_repos cat) s) as (new & Hk & Hnew).
  exists (rebuild m (all_repos cat) s), new. split; [|done].
  unfold _parse_requirements. rewrite bind_run. unfold lift. rewrite Hm.
  by rewrite rebuild_run.
Qed.

Lemma parse_requirements_returns_witness :
  let lines := [text_line "cloudify-cli@3.4"; text_line "cloudify-agent"] in
  Forall (λ line, Py.count "@" line ≤ 1) lines ∧
  ∃ (s' : odict) (new : list string),
    _parse_requirements clap lines MASTER [("docl", "master")] = (Returns tt, s', []) ∧
    s'.*1 = [("docl", "master")].*1 ++ new ∧
    new ⊆ all_repos clap.
Proof.
  intros lines.
  assert (Forall (λ line, Py.count "@" line ≤ 1) lines) as Hl
    by (repeat constructor).
  split; [exact Hl|].
  exact (parse_requirements_returns clap MASTER lines [("docl", "master")] Hl).
Defined.

(** Blank lines in an override source change nothing: with them or
    without them [_parse_requirements] ends the same way, and leaves the
    same [actual_repos]. *)
Theorem blank_lines_are_ignored (cat : Catalogue) (branch : string)
    (lines : list string) (s : odict) :
  "" ∉ all_repos cat →
  _parse_requirements cat (filter (λ line, Py.strip line ≠ "") lines) branch s =
  _parse_requirements cat lines branch s.
Proof.
  intros Hcat. unfold _parse_requirements. rewrite !bind_run. unfold lift.
  pose proof (parse_lines_blank branch lines ∅ ∅ (λ _ _, eq_refl)) as H.
  destruct (parse_lines branch (filter _ lines) ∅) as [m1|e1],
           (parse_lines branch lines ∅) as [m2|e2]; try done; [|by subst].
  rewrite !rebuild_run. do 2 f_equal. apply rebuild_ext.
  intros r Hr. apply H. by intros ->.
Qed.

Lemma blank_lines_are_ignored_witness :
  let lines := [text_line ""; text_line "cloudify-cli@3.4"; text_line "  ";
                text_line "cloudify-agent"] in
  ("" ∉ all_repos clap) ∧
  filter (λ line, Py.strip line ≠ "") lines =
    [text_line "cloudify-cli@3.4"; text_line "cloudify-agent"] ∧
  _parse_requirements clap [text_line "cloudify-cli@3.4"; text_line "cloudify-agent"]
    MASTER [] =
  _parse_requirements clap lines MASTER [].
Proof.
  intros lines.
  assert ("" ∉ all_repos clap) as Hcat by (apply (bool_decide_unpack _); by vm_compute).
  split; [exact Hcat|]. split; [reflexivity|].
  exact (blank_lines_are_ignored clap MASTER lines [] Hcat).
Defined.

(** An override source that names no repository of the Catalogue (an empty
    file, say) leaves [actual_repos] empty, which is how the commands tell
    that there is no override: [setup] then runs over the whole Catalogue,
    as it does with no override source. *)
Theorem override_without_known_repository (cat : Catalogue) (REPO_BASE : string)
    (host : HostDict) (sys : Facade) (branch : string) (lines : list string)
    (entries : list (string * string)) :
  Forall2 (override_line branch) lines entries →
  (∀ r, r ∈ entries.*1 → r ∉ all_repos cat) →
  _parse_requirements cat lines branch [] = (Returns tt, [], []) ∧
  setup cat REPO_BASE host sys branch (Some lines) [] =
    setup cat REPO_BASE host sys branch None [].
Proof.
  intros Hl Hnone.
  assert (_parse_requirements cat lines branch [] = (Returns tt, [], [])) as Hp.
  { unfold _parse_requirements. rewrite bind_run. unfold lift.
    rewrite (parse_lines_override _ _ _ _ Hl), (right_id_L ∅ (∪)).
    rewrite rebuild_run, rebuild_none; [done|].
    intros r Hr. apply dict_of_lookup_None. intros Hin. by apply (Hnone r). }
  split; [done|]. unfold setup. by rewrite !bind_run, Hp.
Qed.

Lemma override_without_known_repository_witness :
  let lines := [text_line "cloudify-nosuch@3.4"; text_line "README"] in
  let entries := [("cloudify-nosuch", "3.4"); ("README", MASTER)] in
  Forall2 (override_line MASTER) lines entries ∧
  (∀ r, r ∈ entries.*1 → r ∉ all_repos clap) ∧
  _parse_requirements clap lines MASTER [] = (Returns tt, [], []) ∧
  setup clap "/repos" insertion_ordered sample_sys MASTER (Some lines) [] =
    setup clap "/repos" insertion_ordered sample_sys MASTER None [].
Proof.
  intros lines entries.
  assert (Forall2 (override_line MASTER) lines entries) as Hl.
  { constructor; [|constructor; [|constructor]].
    - by apply (override_repo_ref MASTER _ "cloudify-nosuch" "3.4").
    - change (override_line MASTER (text_line "README")
                (Py.strip (text_line "README"), MASTER)).
      by apply override_repo. }
  assert (∀ r, r ∈ entries.*1 → r ∉ all_repos clap) as Hnone.
  { apply Forall_forall. repeat constructor; apply (bool_decide_unpack _); by vm_compute. }
  split; [exact Hl|]. split; [exact Hnone|].
  exact (override_without_known_repository clap "/repos" insertion_ordered sample_sys
           MASTER lines entries Hl Hnone).
Defined.

(** ** [_get_repos], called again *)

Section SwitchFacts.

Lemma switched_switched b1 b2 (rb : string * string) :
  b1 ≠ MASTER → switched b2 (switched b1 rb) = switched b1 rb.
Proof.
  intros Hb. destruct rb as [r b]. unfold switched. cbn [fst snd].
  destruct (decide (b = MASTER)); by rewrite decide_False.
Qed.

Lemma switched_twice b1 b2 (l : odict) :
  b1 ≠ MASTER → switched b2 <$> (switched b1 <$> l) = switched b1 <$> l.
Proof.
  intros Hb. rewrite <- list_fmap_compose. apply list_fmap_ext.
  intros _ rb _. by apply switched_switched.
Qed.

End SwitchFacts.

(** [_get_repos] called a second time with the same arguments gives the
    same RepoSet and changes nothing more. With an override in place, a
    first call with a branch other than the default leaves no entry at the
    default branch, so the RepoSet is settled: a later call gives the same
    RepoSet whatever branch it is given. *)
Theorem get_repos_twice (cat : Catalogue) (host : HostDict) (dev : bool)
    (b1 b2 : string) (s : odict) :
  NoDup s.*1 →
  ∃ rs s' : odict,
    _get_repos cat host b1 dev s = (Returns rs, s', []) ∧
    _get_repos cat host b1 dev s' = (Returns rs, s', []) ∧
    (s ≠ [] → b1 ≠ MASTER → _get_repos cat host b2 dev s' = (Returns rs, s', [])).
Proof.
  intros Hnd. destruct (decide (s = [])) as [->|Hs].
  - eexists _, _. rewrite get_repos_no_override. done.
  - rewrite get_repos_override by done. cbv zeta.
    destruct (decide (b1 = MASTER)) as [->|Hb].
    + exists s, s. rewrite get_repos_override by done.
      cbv zeta. by rewrite decide_True.
    + exists (switched b1 <$> s), (switched b1 <$> s).
      assert (switched b1 <$> s ≠ []) as Hs' by (by destruct s).
      assert (NoDup (switched b1 <$> s).*1) as Hnd' by (by rewrite switched_keys).
      split; [done|]. split.
      * rewrite get_repos_override by done. cbv zeta.
        by rewrite decide_False, switched_twice.
      * intros _ _. rewrite get_repos_override by done. cbv zeta.
        case_decide; [done|]. by rewrite switched_twice.
Qed.

Lemma get_repos_twice_witness :
  let s := [("cloudify-agent", "master"); ("cloudify-cli", "3.4")] in
  let rs := [("cloudify-agent", "4.0"); ("cloudify-cli", "3.4")] in
  NoDup s.*1 ∧
  _get_repos clap insertion_ordered "4.0" true s = (Returns rs, rs, []) ∧
  ∃ rs' s' : odict,
    _get_repos clap insertion_ordered "4.0" true s = (Returns rs', s', []) ∧
    _get_repos clap insertion_ordered "4.0" true s' = (Returns rs', s', []) ∧
    (s ≠ [] → "4.0" ≠ MASTER →
     _get_repos clap insertion_ordered "5.0" true s' = (Returns rs', s', [])).
Proof.
  intros s rs.
  assert (NoDup s.*1) as Hnd by (apply (bool_decide_unpack _); by vm_compute).
  split; [exact Hnd|]. split; [by vm_compute|].
  exact (get_repos_twice clap insertion_ordered true "4.0" "5.0" s Hnd).
Defined.

(** ** The packages, for any RepoSet *)

Section PackageInvariants.

Lemma first_pass_keys (repos acc : odict) :
  foldl (λ p '(repo, _), od_set repo repo p) acc repos =
    foldl (λ p repo, od_set repo repo p) acc repos.*1.
Proof.
  revert acc. induction repos as [|[r b] repos IH]; intros acc; [done|]. apply IH.
Qed.

Lemma first_pass_NoDup (keys : list string) (acc : odict) :
  NoDup acc.*1 → NoDup (foldl (λ p repo, od_set repo repo p) acc keys).*1.
Proof.
  revert acc. induction keys as [|r keys IH]; intros acc Hacc; [done|].
  cbn [foldl]. by apply IH, od_set_NoDup.
Qed.

Lemma filter_key_keys (k : string) (d : list (string * string)) :
  (filter (λ kv : string * string, kv.1 ≠ k) d).*1 = filter (.≠ k) d.*1.
Proof.
  induction d as [|[k' v'] d IH]; [done|].
  rewrite fmap_cons. change ((k', v').1) with k'.
  destruct (decide (k' = k)) as [->|Hne].
  - rewrite (filter_cons_False (λ kv : string * string, kv.1 ≠ k))
      by (intros H; by apply H).
    rewrite filter_cons_False by (intros H; by apply H). exact IH.
  - rewrite (filter_cons_True (λ kv : string * string, kv.1 ≠ k)) by done.
    rewrite filter_cons_True by done. rewrite fmap_cons.
    change ((k', v').1) with k'. f_equal. exact IH.
Qed.

Lemma od_set_elem k v (d : odict) r : r ∈ (od_set k v d).*1 → r = k ∨ r ∈ d.*1.
Proof.
  rewrite od_set_keys. case_decide; [by right|].
  intros [?|?%list_elem_of_singleton]%elem_of_app; by eauto.
Qed.

(** [cloudify_packages_of] reads the keys of the RepoSet only. *)
Lemma cloudify_packages_of_by_keys (repos : odict) :
  cloudify_packages_of repos =
    let first := foldl (λ p repo, od_set repo repo p) [] repos.*1 in
    let rest :=
      filter (λ kv : string * string, kv.1 ≠ "cloudify-dev")
        (filter (λ kv : string * string, kv.1 ≠ "cloudify-manager-blueprints")
           (filter (λ kv : string * string, kv.1 ≠ "cloudify-manager") first)) in
    if from_option Py.truthy false (od_get "cloudify-manager" first) then
      od_set "cloudify-system-workflows" "cloudify-manager/workflows"
        (od_set "cloudify-integration-tests" "cloudify-manager/tests"
           (od_set "cloudify-rest-service" "cloudify-manager/rest-service" rest))
    else rest.
Proof. unfold cloudify_packages_of, od_pop. by rewrite first_pass_keys. Qed.

End PackageInvariants.

(** For any list of entries, with or without repeated keys, the packages
    derived have no name twice, none of them has the name of the manager,
    blueprints or dev repository, and they are the same for two RepoSets
    with the same keys: the refs play no part in what is installed. *)
Theorem packages_invariants (repos : list (string * string)) :
  NoDup (cloudify_packages_of repos).*1 ∧
  (∀ r, r ∈ NOT_PLAIN → r ∉ (cloudify_packages_of repos).*1) ∧
  (∀ repos' : list (string * string),
     repos'.*1 = repos.*1 → cloudify_packages_of repos' = cloudify_packages_of repos).
Proof.
  split_and!.
  - rewrite cloudify_packages_of_by_keys. cbv zeta.
    pose proof (first_pass_NoDup repos.*1 [] (NoDup_nil_2)) as Hfirst.
    revert Hfirst. generalize (foldl (λ p repo, od_set repo repo p) [] repos.*1).
    intros first Hfirst.
    assert (NoDup (filter (λ kv : string * string, kv.1 ≠ "cloudify-dev")
              (filter (λ kv : string * string, kv.1 ≠ "cloudify-manager-blueprints")
                 (filter (λ kv : string * string, kv.1 ≠ "cloudify-manager") first))).*1)
      as Hrest.
    { rewrite !filter_key_keys. by do 3 apply NoDup_filter. }
    destruct (from_option _ _ _); [|done]. by do 3 apply od_set_NoDup.
  - intros r Hr. rewrite cloudify_packages_of_by_keys. cbv zeta.
    generalize (foldl (λ p repo, od_set repo repo p) [] repos.*1). intros first.
    assert (r ∉ (filter (λ kv : string * string, kv.1 ≠ "cloudify-dev")
              (filter (λ kv : string * string, kv.1 ≠ "cloudify-manager-blueprints")
                 (filter (λ kv : string * string, kv.1 ≠ "cloudify-manager") first))).*1)
      as Hrest.
    { rewrite !filter_key_keys, !list_elem_of_filter.
      unfold NOT_PLAIN in Hr. rewrite !elem_of_cons in Hr.
      destruct Hr as [->|[->|[->|Hr]]]; [tauto..|by apply elem_of_nil in Hr]. }
    assert (r ∉ MANAGER_PACKAGES.*1) as Hnew.
    { unfold NOT_PLAIN in Hr. rewrite !elem_of_cons in Hr.
      destruct Hr as [->|[->|[->|Hr]]]; [..|by apply elem_of_nil in Hr];
        apply (bool_decide_unpack _); by vm_compute. }
    destruct (from_option _ _ _); [|done].
    intros Hin.
    apply od_set_elem in Hin as [->|Hin]; [apply Hnew; by do 2 right; left|].
    apply od_set_elem in Hin as [->|Hin]; [apply Hnew; by right; left|].
    apply od_set_elem in Hin as [->|Hin]; [apply Hnew; by left|].
    done.
  - intros repos' Hk. by rewrite !cloudify_packages_of_by_keys, Hk.
Qed.

(** ** A clone that succeeds *)

Section CloneSuccess.

Lemma successfully_cloned_marker repo :
  Py.contains DESTINATION_EXISTS ("Successfully cloned `" +:+ repo +:+ "`") =
    Py.contains DESTINATION_EXISTS repo.
Proof.
  change ("Successfully cloned `" +:+ repo +:+ "`") with
    ("Successfully cloned " +:+ String "`" (repo +:+ String "`" "")).
  rewrite !contains_app_char by done.
  by destruct (Py.contains DESTINATION_EXISTS repo).
Qed.

End CloneSuccess.

(** The turn of [clone] for a repository whose clone command succeeds
    prints [Cloning] and the repository, runs the command, and then prints
    the output of the command, or [Successfully cloned] and the repository
    when the command printed nothing (neither the output nor the name of
    the repository holding the text [clone] takes for an existing
    path). *)
Theorem clone_success_report (REPO_BASE : string) (sys : Facade) (shallow : bool)
    (repo ref out : string) (s : odict) :
  run sys (clone_command REPO_BASE repo ref shallow) = Returns out →
  Py.contains DESTINATION_EXISTS out = false →
  Py.contains DESTINATION_EXISTS repo = false →
  clone_turn REPO_BASE sys ["git"] shallow (repo, ref) s =
    (Returns tt, s,
     output_lines repo ("Cloning `" +:+ repo +:+ "`") ++
     [Ran (clone_command REPO_BASE repo ref shallow)] ++
     output_lines repo
       (if Py.truthy out then out else "Successfully cloned `" +:+ repo +:+ "`")) ∧
  (out = "" → Py.count "010" repo = 0 →
   clone_turn REPO_BASE sys ["git"] shallow (repo, ref) s =
     (Returns tt, s,
      [Printed (tagged_line repo (Fore.YELLOW +:+ "Cloning `" +:+ repo +:+ "`"));
       Ran (clone_command REPO_BASE repo ref shallow);
       Printed (tagged_line repo
                  (Fore.YELLOW +:+ "Successfully cloned `" +:+ repo +:+ "`"))])).
Proof.
  intros Hrun Hout Hrepo.
  assert (clone_turn REPO_BASE sys ["git"] shallow (repo, ref) s =
    (Returns tt, s,
     output_lines repo ("Cloning `" +:+ repo +:+ "`") ++
     [Ran (clone_command REPO_BASE repo ref shallow)] ++
     output_lines repo
       (if Py.truthy out then out else "Successfully cloned `" +:+ repo +:+ "`")))
    as Hturn.
  { rewrite clone_turn_run. cbv zeta. rewrite Hrun. unfold clone_report.
    rewrite <- (assoc_L (++)). do 3 f_equal.
    destruct (Py.truthy out); [by rewrite Hout|].
    by rewrite successfully_cloned_marker, Hrepo. }
  split; [done|]. intros -> Hnl. rewrite Hturn. cbn [Py.truthy].
  assert (∀ a b, Py.count "010" (a +:+ repo +:+ b) = Py.count "010" a + Py.count "010" b)
    as Hcount by (intros a b; rewrite !count_app; lia).
  rewrite !output_lines_single; [done|by rewrite Hcount|done|by rewrite Hcount|done].
Qed.

Lemma clone_success_report_witness :
  let cmd := clone_command "/repos" "docl" "master" true in
  run sample_sys cmd = Returns "" ∧
  Py.contains DESTINATION_EXISTS "" = false ∧
  Py.contains DESTINATION_EXISTS "docl" = false ∧
  clone_turn "/repos" sample_sys ["git"] true ("docl", "master") [] =
    (Returns tt, [],
     [Printed (tagged_line "docl" (Fore.YELLOW +:+ "Cloning `docl`"));
      Ran cmd;
      Printed (tagged_line "docl" (Fore.YELLOW +:+ "Successfully cloned `docl`"))]).
Proof.
  intros cmd. split; [reflexivity|]. split; [reflexivity|]. split; [reflexivity|].
  exact (proj2 (clone_success_report "/repos" sample_sys true "docl" "master" "" []
                  eq_refl eq_refl eq_refl) eq_refl eq_refl).
Defined.

(** ** The layout of the lines *)

Section LayoutFacts.

Lemma string_length_app (a b : string) :
  String.length (a +:+ b) = String.length a + String.length b.
Proof. induction a as [|c a IH]; [done|]. simpl. by rewrite IH. Qed.

Lemma string_app_assoc (a b c : string) : (a +:+ b) +:+ c = a +:+ b +:+ c.
Proof.
  induction a as [|x a IH]; [done|].
  change (String x ((a +:+ b) +:+ c) = String x (a +:+ b +:+ c)). by f_equal.
Qed.

Lemma repeat_length fill n : String.length (Py.repeat fill n) = n.
Proof. induction n as [|n IH]; [done|]. simpl. by rewrite IH. Qed.

End LayoutFacts.

(** [_print] puts the name in green and pads it with blanks to 30 columns
    (35 characters with the 5 of the colour), then the bar and the text. A
    name of 30 characters or less gives a bar at the same column; a longer
    name is printed whole and moves the bar. The names of the Catalogue and
    of the manager packages all have 30 characters or less. *)
Theorem print_layout (repo line : string) (s : odict) :
  _print repo line s =
    (Returns tt, s,
     [Printed (Fore.GREEN +:+ repo +:+ Py.repeat " " (30 - String.length repo) +:+
               "| " +:+ line +:+ Fore.RESET)]) ∧
  String.length (Fore.GREEN +:+ repo +:+ Py.repeat " " (30 - String.length repo)) =
    35 `max` (5 + String.length repo) ∧
  Forall (λ name, String.length name ≤ 30) (REPOS ++ MANAGER_PACKAGES.*1).
Proof.
  split_and!.
  - unfold _print, print, emit, Py.ljust. do 3 f_equal.
    rewrite string_length_app. change (String.length Fore.GREEN) with 5.
    replace (35 - (5 + String.length repo)) with (30 - String.length repo) by lia.
    by rewrite !string_app_assoc.
  - rewrite !string_length_app, repeat_length.
    change (String.length Fore.GREEN) with 5. lia.
  - repeat constructor; apply (bool_decide_unpack _); by vm_compute.
Qed.

(** [_print_header] puts the header in blue between two runs of dashes
    that fill the line to 30 columns (40 characters with the 10 of the
    colours); the run on the left is the shorter one when they differ. *)
Theorem print_header_layout (header : string) (s : odict) :
  let pad := 30 - String.length header in
  _print_header header s =
    (Returns tt, s,
     [Printed (Py.repeat "-" (pad / 2) +:+
               Fore.BLUE +:+ header +:+ Fore.RESET +:+
               Py.repeat "-" (pad - pad / 2))]) ∧
  pad / 2 ≤ pad - pad / 2 ≤ pad / 2 + 1.
Proof.
  intros pad. split.
  - unfold _print_header, print, emit, Py.center. cbv zeta. do 3 f_equal.
    rewrite !string_length_app.
    change (String.length Fore.BLUE) with 5. change (String.length Fore.RESET) with 5.
    replace (40 - (5 + (String.length header + 5))) with pad by (unfold pad; lia).
    by rewrite !string_app_assoc.
  - pose proof (Nat.div_mod_eq pad 2) as Hdm.
    pose proof (Nat.mod_upper_bound pad 2). lia.
Qed.

(** ** [pull]: every schedule *)

Section PullRuns.

Context (REPO_BASE : string) (sys : Facade) (repos : list string).

#[local] Abbreviation step := (pull_step (length repos)).
#[local] Abbreviation inv := (pool_inv REPO_BASE sys repos).
#[local] Abbreviation measure := (pool_measure (length repos)).

(** No run goes on for ever. *)
Lemma pool_sn st : inv st → sn step st.
Proof.
  remember (measure st) as m eqn:Hm. revert st Hm.
  induction (lt_wf m) as [m _ IH]. intros st -> Hinv.
  constructor. intros st' Hstep. unfold flip in Hstep.
  apply (IH (measure st'));
    [by apply (pool_measure_step REPO_BASE sys repos)|done
    |by apply (pool_inv_step REPO_BASE sys repos st)].
Qed.

(** After the return of [pull] nothing takes a step. *)
Lemma pool_returned_nf st : inv st → pc st = Returned → nf step st.
Proof.
  intros (Hlen & _ & _ & Hpc) Hret [st' Hstep].
  destruct Hstep as [i target ths lg Hi| ths lg | p i ev todo ths lg Hi
                    | p i ths lg Hi | i ths lg Hi | ths lg]; simpl in *;
    try done; subst p; simpl in Hpc.
  - pose proof (lookup_lt_Some _ _ _ Hi) as Hlt. rewrite Hlen in Hlt.
    rewrite (Hpc i Hlt) in Hi. done.
  - pose proof (lookup_lt_Some _ _ _ Hi) as Hlt. rewrite Hlen in Hlt.
    rewrite (Hpc i Hlt) in Hi. done.
Qed.

Lemma pull_step_log st st' : step st st' → log st `prefix_of` log st'.
Proof.
  destruct 1; simpl; try done. by apply prefix_app_r.
Qed.

End PullRuns.

(** Whatever the order in which the threads of [pull] take their steps, no
    run goes on for ever, and a run can only stop at the return of [pull]:
    before it, the main thread or one of the threads can always take a
    step (a [join] waits for a thread that still has a step to take), and
    after it nothing takes a step. *)
Theorem pull_ends_under_every_schedule (REPO_BASE : string) (sys : Facade)
    (repos : list string) :
  sn (pull_step (length repos)) (pull_init REPO_BASE sys repos) ∧
  (∀ st, pull_reachable REPO_BASE sys repos st →
     (nf (pull_step (length repos)) st ↔ pc st = Returned)).
Proof.
  split.
  - apply (pool_sn REPO_BASE sys), pool_inv_init.
  - intros st Hst. pose proof (pool_inv_reachable REPO_BASE sys repos st Hst) as Hinv.
    split.
    + intros Hnf.
      assert (pc st = Returned ∨ pc st ≠ Returned) as [Hp|Hp]
        by (destruct (pc st); eauto); [done|].
      destruct Hnf. by apply (pool_progress REPO_BASE sys repos).
    + by apply (pool_returned_nf REPO_BASE sys).
Qed.

(** At every moment of [pull], what has been emitted for a repository is
    the beginning of the events of [_pull_repo] for it, in their order:
    nothing before its thread is started, all of them once the thread has
    finished. What has been emitted is never taken back. *)
Theorem pull_reports_in_order (REPO_BASE : string) (sys : Facade)
    (repos : list string) (st : pool) (i : nat) (repo : string) :
  pull_reachable REPO_BASE sys repos st →
  repos !! i = Some repo →
  events_of i (log st) `prefix_of` pull_events REPO_BASE sys repo ∧
  (∀ target, threads st !! i = Some (Unstarted target) → events_of i (log st) = []) ∧
  (threads st !! i = Some Finished →
   events_of i (log st) = pull_events REPO_BASE sys repo) ∧
  (∀ st', pull_step (length repos) st st' → log st `prefix_of` log st').
Proof.
  intros Hst Hi.
  destruct (pool_inv_reachable REPO_BASE sys repos st Hst) as (_ & Hth & _ & _).
  specialize (Hth i repo Hi). split_and!.
  - destruct (threads st !! i) as [[target|todo|]|]; simpl in Hth.
    + destruct Hth as [-> _]. apply prefix_nil.
    + rewrite <- Hth. by apply prefix_app_r.
    + by rewrite Hth.
    + done.
  - intros target Hun. rewrite Hun in Hth. by destruct Hth.
  - intros Hfin. by rewrite Hfin in Hth.
  - intros st'. apply pull_step_log.
Qed.

Lemma pull_reports_in_order_witness :
  let repos := ["cloudify-cli"; "cloudify-agent"] in
  let cli := Ran (_git "/repos" "cloudify-cli" ++ ["pull"]) in
  let agent := Ran (_git "/repos" "cloudify-agent" ++ ["pull"]) in
  let st := Pool (Joining 0) [Running (drop 1 (pull_events "/repos" sample_sys "cloudify-cli"));
                             Running []]
                 [(1, agent); (0, cli)] in
  pull_reachable "/repos" sample_sys repos st ∧
  repos !! 0 = Some "cloudify-cli" ∧
  events_of 0 (log st) `prefix_of` pull_events "/repos" sample_sys "cloudify-cli".
Proof.
  intros repos cli agent st.
  assert (pull_reachable "/repos" sample_sys repos st) as Hst.
  { unfold pull_reachable.
    eapply rtc_l; [by apply (step_start _ 0)|]. simpl.
    eapply rtc_l; [by apply (step_start _ 1)|]. simpl.
    eapply rtc_l; [apply (step_started 2)|].
    eapply rtc_l; [by apply (step_emit _ _ 1)|]. simpl.
    eapply rtc_l; [by apply (step_emit _ _ 0)|]. simpl.
    apply rtc_refl. }
  split; [exact Hst|]. split; [reflexivity|].
  exact (proj1 (pull_reports_in_order "/repos" sample_sys repos st 0 "cloudify-cli"
                  Hst eq_refl)).
Defined.

(** ** What the commands leave alone *)

(** [clone], [status], [install], the start of [pull], and [checkout] of
    the default branch never assign to [actual_repos], whatever the
    collaborators do and however the command ends: it is written by the
    resolution of an override source and by a branch argument only. *)
Theorem commands_leave_actual_repos_alone (cat : Catalogue) (REPO_BASE : string)
    (host : HostDict) (sys : Facade) (shallow dev verbose : bool) (s : odict) :
  (clone cat REPO_BASE host sys shallow dev s).1.2 = s ∧
  (status cat REPO_BASE host sys s).1.2 = s ∧
  (install cat REPO_BASE host sys verbose s).1.2 = s ∧
  (pull_repos cat host s).1.2 = s ∧
  (checkout cat REPO_BASE host sys MASTER s).1.2 = s.
Proof.
  split_and!.
  - unfold clone. rewrite bind_run, print_header_run, bind_run, create_repo_base_run.
    assert (∀ pre,
      (let '(r, s'', t') :=
         (_get_repos cat host MASTER dev ≫= λ repos,
          for_ repos (clone_turn REPO_BASE sys ["git"] shallow)) s
       in (r, s'', pre ++ t')).1.2 = s) as Hloop.
    { intros pre. rewrite bind_run, get_repos_master.
      destruct (loop_processed REPO_BASE (λ rb, plain rb.1)
                  (if decide (s = [])
                   then dict_iteritems ((λ repo, (repo, MASTER)) <$>
                                          (if dev then all_repos cat else core_repos cat))
                   else s)
                  (clone_turn REPO_BASE sys ["git"] shallow) s) as (out & t & Hrun & _).
      { intros rb. apply clone_turn_about. }
      by rewrite Hrun. }
    destruct (os_path_exists sys REPO_BASE).
    + specialize (Hloop []).
      by destruct ((_get_repos cat host MASTER dev ≫= _) s) as [[r s'] t].
    + destruct (os_makedirs sys REPO_BASE) as [[]|e]; [|done].
      specialize (Hloop [Printed ("Creating base repos dir: " +:+ REPO_BASE);
                         MadeDirs REPO_BASE]).
      by destruct ((_get_repos cat host MASTER dev ≫= _) s) as [[r s'] t].
  - unfold status. rewrite bind_run, print_header_run, bind_run, get_repos_master.
    destruct (loop_processed REPO_BASE (λ rb, plain rb.1)
                (if decide (s = [])
                 then dict_iteritems ((λ repo, (repo, MASTER)) <$> all_repos cat) else s)
                (status_turn REPO_BASE sys) s) as (out & t & Hrun & _).
    { intros rb. apply status_turn_about. }
    by rewrite Hrun.
  - by rewrite install_run.
  - unfold pull_repos. by rewrite bind_run, print_header_run, bind_run, get_repos_master.
  - unfold checkout. rewrite bind_run, print_header_run, bind_run, get_repos_master.
    destruct (loop_processed REPO_BASE (λ rb, plain rb.1)
                (if decide (s = [])
                 then dict_iteritems ((λ repo, (repo, MASTER)) <$> all_repos cat) else s)
                (checkout_turn REPO_BASE sys) s) as (out & t & Hrun & _).
    { intros rb. apply checkout_turn_about. }
    by rewrite Hrun.
Qed.

(** ** White space in the override source *)

Section LineFacts.

Lemma parse_line_strip branch line :
  parse_line branch (Py.strip line) = parse_line branch line.
Proof. unfold parse_line. by rewrite strip_idemp. Qed.

Lemma parse_lines_strip branch lines m :
  parse_lines branch (Py.strip <$> lines) m = parse_lines branch lines m.
Proof.
  revert m. induction lines as [|line lines IH]; intros m; [done|].
  rewrite fmap_cons. cbn [parse_lines]. rewrite parse_line_strip.
  destruct (parse_line branch line) as [[r b]|e]; [apply IH|done].
Qed.

End LineFacts.

(** White space at the ends of the lines of an override source (the line
    feed that [readlines] leaves, a carriage return, an indentation) plays
    no part: [_parse_requirements] does the same on the lines as they are
    and on the lines stripped. *)
Theorem white_space_around_lines_is_ignored (cat : Catalogue) (branch : string)
    (lines : list string) (s : odict) :
  _parse_requirements cat (Py.strip <$> lines) branch s =
  _parse_requirements cat lines branch s.
Proof.
  unfold _parse_requirements. by rewrite !bind_run, parse_lines_strip.
Qed.

(** ** [clone] with an override in place *)

(** With an override in place and git only failing by a non-zero return,
    [clone] runs [git clone] once for every repository of the override, at
    the ref the override has for it and in its order, and runs no other
    command; [dev] plays no part. *)
Theorem clone_with_override (cat : Catalogue) (REPO_BASE : string)
    (host : HostDict) (sys : Facade) (shallow dev : bool) (s : odict) :
  s ≠ [] →
  (∀ cmd e, run sys cmd = Raises e → ∃ msg, e = ErrorReturnCode msg) →
  (os_path_exists sys REPO_BASE = false → os_makedirs sys REPO_BASE = Returns tt) →
  ∃ t : list event,
    clone cat REPO_BASE host sys shallow dev s =
      (Returns tt, s, clone_preamble REPO_BASE sys ++ t) ∧
    commands_of t = (λ rb, clone_command REPO_BASE rb.1 rb.2 shallow) <$> s ∧
    clone cat REPO_BASE host sys shallow (negb dev) s =
      clone cat REPO_BASE host sys shallow dev s.
Proof.
  intros Hs Hsys Hbase. eexists. split; [by apply clone_run|].
  rewrite decide_False by done. split.
  - rewrite commands_of_concat, <- list_fmap_compose.
    rewrite (list_fmap_ext _ (λ rb, [clone_command REPO_BASE rb.1 rb.2 shallow]) s)
      by (intros _ [repo ref] _; apply clone_turn_commands).
    apply concat_singletons.
  - rewrite !clone_run by done. by rewrite !decide_False by done.
Qed.

Lemma clone_with_override_witness :
  let s := [("cloudify-agent", "3.4"); ("cloudify-cli", "master")] in
  s ≠ [] ∧
  (∀ cmd e, run sample_sys cmd = Raises e → ∃ msg, e = ErrorReturnCode msg) ∧
  (os_path_exists sample_sys "/repos" = false →
   os_makedirs sample_sys "/repos" = Returns tt) ∧
  ∃ t : list event,
    clone clap "/repos" insertion_ordered sample_sys true true s =
      (Returns tt, s, clone_preamble "/repos" sample_sys ++ t) ∧
    commands_of t = (λ rb, clone_command "/repos" rb.1 rb.2 true) <$> s ∧
    clone clap "/repos" insertion_ordered sample_sys true (negb true) s =
      clone clap "/repos" insertion_ordered sample_sys true true s.
Proof.
  intros s.
  assert (s ≠ []) as Hs by done.
  assert (os_path_exists sample_sys "/repos" = false →
          os_makedirs sample_sys "/repos" = Returns tt) as Hbase by done.
  split; [exact Hs|]. split; [exact sample_sys_failures|]. split; [exact Hbase|].
  exact (clone_with_override clap "/repos" insertion_ordered sample_sys true true s
           Hs sample_sys_failures Hbase).
Defined.

(** ** [setup] when every command succeeds *)

Section SetupFacts.

Context (cat : Catalogue) (REPO_BASE : string) (host : HostDict) (sys : Facade).

Lemma status_turn_commands rb s :
  (∀ cmd, ∃ out, run sys cmd = Returns out) →
  (status_turn REPO_BASE sys rb s).1 = (Returns tt, s) ∧
  commands_of (status_turn REPO_BASE sys rb s).2 =
    [symbolic_ref_command (_git REPO_BASE rb.1); _git REPO_BASE rb.1 ++ ["status"; "-s"]].
Proof.
  intros Hsys. destruct rb as [repo b].
  destruct (Hsys (symbolic_ref_command (_git REPO_BASE repo))) as [head Hsym].
  destruct (Hsys (_git REPO_BASE repo ++ ["status"; "-s"])) as [out Hst].
  destruct (status_turn_lines REPO_BASE sys repo b head out s Hsym Hst) as [-> _].
  split; [done|]. cbn [snd fst].
  rewrite commands_of_app, commands_of_printed. done.
Qed.

Lemma install_turn_commands verbose np s :
  commands_of (install_turn REPO_BASE sys ["pip"] verbose np s).2 =
    [pip_command REPO_BASE np.2].
Proof.
  destruct np as [name path]. rewrite install_turn_run. cbn [snd].
  change (commands_of (Ran ?c :: ?l)) with (c :: commands_of l). f_equal.
  destruct (run sys _) as [out|e]; [|done]. apply commands_of_printed.
Qed.

End SetupFacts.

(** When every command succeeds and the base directory is there or can be
    made, [setup] returns after it has, for the RepoSet left by the
    override source (the whole Catalogue when there is none), cloned every
    repository at its ref with [--depth 1], then asked every repository for
    its branch and its status, then run pip for every package derived from
    the RepoSet: it runs these commands, in this order, and no other. *)
Theorem setup_when_every_command_succeeds (cat : Catalogue) (REPO_BASE : string)
    (host : HostDict) (sys : Facade) (branch : string)
    (requirements : option (list string)) (s s0 : odict) :
  resolve cat branch requirements s = (Returns tt, s0, []) →
  (∀ cmd, ∃ out, run sys cmd = Returns out) →
  (os_path_exists sys REPO_BASE = false → os_makedirs sys REPO_BASE = Returns tt) →
  ∃ (rs : list (string * string)) (t : list event),
    _get_repos cat host MASTER true s0 = (Returns rs, s0, []) ∧
    setup cat REPO_BASE host sys branch requirements s = (Returns tt, s0, t) ∧
    commands_of t =
      ((λ rb, clone_command REPO_BASE rb.1 rb.2 true) <$> rs) ++
      concat ((λ rb, [symbolic_ref_command (_git REPO_BASE rb.1);
                      _git REPO_BASE rb.1 ++ ["status"; "-s"]]) <$> rs) ++
      (pip_command REPO_BASE <$> (cloudify_packages_of rs).*2).
Proof.
  intros Hres Hsys Hbase.
  assert (∀ cmd e, run sys cmd = Raises e → ∃ msg, e = ErrorReturnCode msg) as Hfail.
  { intros cmd e Hrun. destruct (Hsys cmd) as [out Hout]. by rewrite Hout in Hrun. }
  eexists _, _. split; [apply get_repos_master|].
  set (rs := if decide (s0 = [])
             then dict_iteritems ((λ repo, (repo, MASTER)) <$> all_repos cat) else s0).
  assert (status cat REPO_BASE host sys s0 =
            (Returns tt, s0,
             Printed (header_line "Status") ::
             concat ((λ rb, (status_turn REPO_BASE sys rb s0).2) <$> rs))) as Hstatus.
  { unfold status. rewrite bind_run, print_header_run, bind_run, get_repos_master.
    fold rs. rewrite for_stateless; [done|].
    intros rb _. by apply status_turn_commands. }
  split.
  - unfold setup. fold (resolve cat branch requirements).
    rewrite bind_run, Hres, bind_run, clone_run by done.
    rewrite bind_run, Hstatus, install_run. cbn [app]. reflexivity.
  - fold rs.
    assert (∀ x l, commands_of (Printed x :: l) = commands_of l) as Hp by done.
    rewrite commands_of_app, Hp, !commands_of_app, Hp.
    assert (commands_of (clone_preamble REPO_BASE sys) = []) as ->.
    { unfold clone_preamble. by destruct (os_path_exists sys REPO_BASE). }
    rewrite !commands_of_concat, <- !list_fmap_compose. cbn [app].
    f_equal; [|f_equal].
    + rewrite <- (concat_singletons (λ rb, clone_command REPO_BASE rb.1 rb.2 true)).
      f_equal. apply list_fmap_ext. intros _ [repo ref] _. apply clone_turn_commands.
    + f_equal. apply list_fmap_ext. intros _ rb _. cbn [compose].
      by apply status_turn_commands.
    + rewrite <- (concat_singletons (pip_command REPO_BASE ∘ snd)).
      f_equal. apply list_fmap_ext. intros _ np _. apply install_turn_commands.
Qed.

Lemma setup_when_every_command_succeeds_witness :
  let lines := [text_line "cloudify-manager@3.4"; text_line "cloudify-cli"] in
  let s := [("cloudify-cli", "master"); ("cloudify-manager", "3.4")] in
  resolve clap MASTER (Some lines) [] = (Returns tt, s, []) ∧
  (∀ cmd, ∃ out, run quiet_sys cmd = Returns out) ∧
  (os_path_exists quiet_sys "/repos" = false →
   os_makedirs quiet_sys "/repos" = Returns tt) ∧
  ∃ (rs : list (string * string)) (t : list event),
    _get_repos clap insertion_ordered MASTER true s = (Returns rs, s, []) ∧
    setup clap "/repos" insertion_ordered quiet_sys MASTER (Some lines) [] =
      (Returns tt, s, t) ∧
    commands_of t =
      ((λ rb, clone_command "/repos" rb.1 rb.2 true) <$> rs) ++
      concat ((λ rb, [symbolic_ref_command (_git "/repos" rb.1);
                      _git "/repos" rb.1 ++ ["status"; "-s"]]) <$> rs) ++
      (pip_command "/repos" <$> (cloudify_packages_of rs).*2).
Proof.
  intros lines s.
  assert (resolve clap MASTER (Some lines) [] = (Returns tt, s, [])) as Hres
    by (by vm_compute).
  assert (∀ cmd, ∃ out, run quiet_sys cmd = Returns out) as Hsys
    by (intros cmd; by exists "").
  assert (os_path_exists quiet_sys "/repos" = false →
          os_makedirs quiet_sys "/repos" = Returns tt) as Hbase by done.
  split; [exact Hres|]. split; [exact Hsys|]. split; [exact Hbase|].
  exact (setup_when_every_command_succeeds clap "/repos" insertion_ordered quiet_sys
           MASTER (Some lines) [] s Hres Hsys Hbase).
Defined.
